(** * waituntil: waiting until a wall-clock time

    A shallow embedding of [waituntil.go] (siebenmann/waituntil) and of the
    parts of the Go packages [time] and [fmt] the program calls, followed by
    the properties of the time-specification parser and of the wait loop.

    Conventions.
    - A [Time] is a wall-clock reading: the number of nanoseconds since
      0001-01-01 00:00:00 on the local civil time line.  The local zone is
      taken to be a fixed offset from UTC, so that comparing, subtracting and
      adding durations on local readings is the same as on instants.  The
      target built by the program carries no monotonic reading, so every
      comparison the program makes is a wall-clock comparison.
    - A [Duration] is Go's [int64] count of nanoseconds.
    - Calendar arithmetic ([Date], [AddDate]) is written on mathematical
      integers; it agrees with Go as long as no intermediate value leaves
      [int64]. *)

From Stdlib Require Import ZArith Lia List Bool String Ascii.
Import ListNotations.
Open Scope Z_scope.

(* ------------------------------------------------------------------ *)
(** * Package time: durations and wall-clock readings *)

Definition Duration := Z.
Definition Time := Z.

Definition Nanosecond : Duration := 1.
Definition Microsecond : Duration := 1000 * Nanosecond.
Definition Millisecond : Duration := 1000 * Microsecond.
Definition Second : Duration := 1000 * Millisecond.
Definition Minute : Duration := 60 * Second.
Definition Hour : Duration := 60 * Minute.

Definition minInt64 : Z := - 2 ^ 63.
Definition maxInt64 : Z := 2 ^ 63 - 1.

Definition minDuration : Duration := minInt64.
Definition maxDuration : Duration := maxInt64.

(** [t.After(u)], [t.Before(u)] and [t.Equal(u)]. *)
Definition After (t u : Time) : bool := u <? t.
Definition Before (t u : Time) : bool := t <? u.

(** [t.Add(d)]. *)
Definition Add (t : Time) (d : Duration) : Time := t + d.

(** [t.Sub(u)]: the duration [t - u], or the largest (smallest) duration
    when the difference does not fit. *)
Definition Sub (t u : Time) : Duration :=
  if t - u >? maxDuration then maxDuration
  else if t - u <? minDuration then minDuration
  else t - u.

(* ------------------------------------------------------------------ *)
(** * The world the program runs in

    The program observes the world through [time.Now()] and acts on it
    through [time.Sleep(d)].  A [World] records the current wall-clock
    reading, how often the clock was read and the sleeps requested so far. *)

Record World := mkWorld {
  wallclock : Time;
  reads : nat;
  slept : list Duration
}.

Definition timeNow (w : World) : Time * World :=
  (wallclock w, mkWorld (wallclock w) (S (reads w)) (slept w)).

(** What the wall clock shows after a sleep of [d] that started at reading
    [t] is up to the environment: the clock may be stepped while the
    program sleeps. *)
Definition ClockModel := Time -> Duration -> Time.

Definition timeSleep (elapse : ClockModel) (d : Duration) (w : World) : World :=
  mkWorld (elapse (wallclock w) d) (reads w) (slept w ++ [d]).

(** A stable clock: a sleep of [d] advances the reading by exactly [d]. *)
Definition stableClock : ClockModel := fun t d => Add t d.

(* ------------------------------------------------------------------ *)
(** * The wait loop of [main] *)

(** The [switch] of the loop body: the span to sleep for a remaining
    duration [dur].  Go's [/] on integers truncates. *)
Definition sleepSpan (dur : Duration) : Duration :=
  if dur >? 2 * Hour then Hour
  else if dur >? Minute then dur ÷ 2
  else dur.

(** One pass through the body of [for { ... }] with [now] freshly read:
    either the function returns or it sleeps. *)
Inductive verdict : Type :=
| Return
| Sleep (d : Duration).

Definition iteration (tgt now : Time) : verdict :=
  if After now tgt then Return
  else
    let dur := Sub tgt now in
    if dur <? Second then Return
    else Sleep (sleepSpan dur).

(** The loop itself.  It has no bound of its own, so the embedding counts
    passes down from [fuel]; [None] means the fuel ran out. *)
Fixpoint waitLoop (elapse : ClockModel) (fuel : nat) (tgt : Time) (w : World)
  : option World :=
  match fuel with
  | O => None
  | S fuel' =>
      let (now, w1) := timeNow w in
      match iteration tgt now with
      | Return => Some w1
      | Sleep d => waitLoop elapse fuel' tgt (timeSleep elapse d w1)
      end
  end.

(** The sleeps a run added to the log. *)
Definition sleepsOf (w w' : World) : list Duration :=
  skipn (List.length (slept w)) (slept w').

(* ------------------------------------------------------------------ *)
(** * Package time: the calendar

    [Date], the field accessors and [AddDate], after the proleptic
    Gregorian computation of Go's [time.go]; the epoch is January 1 of
    year 1. *)

Definition secondsPerMinute : Z := 60.
Definition secondsPerHour : Z := 60 * secondsPerMinute.
Definition secondsPerDay : Z := 24 * secondsPerHour.
Definition daysPer400Years : Z := 365 * 400 + 97.
Definition daysPer100Years : Z := 365 * 100 + 24.
Definition daysPer4Years : Z := 365 * 4 + 1.

(** [daysBefore[m]]: the days of a non-leap year before month [m+1]. *)
Definition daysBefore : list Z :=
  [0; 31; 59; 90; 120; 151; 181; 212; 243; 273; 304; 334; 365].

Definition daysBeforeAt (m : Z) : Z := nth (Z.to_nat m) daysBefore 0.

Definition isLeap (year : Z) : bool :=
  (Z.rem year 4 =? 0) && (negb (Z.rem year 100 =? 0) || (Z.rem year 400 =? 0)).

Definition daysIn (m year : Z) : Z :=
  if (m =? 2) && isLeap year then 29
  else daysBeforeAt m - daysBeforeAt (m - 1).

(** [norm(hi, lo, base)]: carry [lo] into [hi] until [0 <= lo < base]. *)
Definition norm (hi lo base : Z) : Z * Z :=
  let '(hi, lo) :=
    if lo <? 0 then
      let n := (- lo - 1) ÷ base + 1 in (hi - n, lo + n * base)
    else (hi, lo) in
  if lo >=? base then
    let n := lo ÷ base in (hi + n, lo - n * base)
  else (hi, lo).

(** Days from the epoch to January 1 of [year]. *)
Definition daysSinceEpoch (year : Z) : Z :=
  let y := year - 1 in
  let n := y / 400 in
  let y := y - 400 * n in
  let d := daysPer400Years * n in
  let n := y / 100 in
  let y := y - 100 * n in
  let d := d + daysPer100Years * n in
  let n := y / 4 in
  let y := y - 4 * n in
  let d := d + daysPer4Years * n in
  d + 365 * y.

(** [time.Date(year, month, day, hour, min, sec, nsec, time.Local)]: the
    fields may lie outside their usual ranges and are normalised. *)
Definition Date (year month day hour min sec nsec : Z) : Time :=
  let '(year, m) := norm year (month - 1) 12 in
  let month := m + 1 in
  let '(sec, nsec) := norm sec nsec 1000000000 in
  let '(min, sec) := norm min sec 60 in
  let '(hour, min) := norm hour min 60 in
  let '(day, hour) := norm day hour 24 in
  let d := daysSinceEpoch year in
  let d := d + daysBeforeAt (month - 1) in
  let d := if isLeap year && (month >=? 3) then d + 1 else d in
  let d := d + (day - 1) in
  let abs := d * secondsPerDay
             + (hour * secondsPerHour + min * secondsPerMinute + sec) in
  abs * Second + nsec.

(** [absDate], first half: the year and the day of the year (from 0) of
    a day count. *)
Definition yearDay (days : Z) : Z * Z :=
  let d := days in
  let n := d / daysPer400Years in
  let y := 400 * n in
  let d := d - daysPer400Years * n in
  let n := d / daysPer100Years in
  let n := n - n / 4 in
  let y := y + 100 * n in
  let d := d - daysPer100Years * n in
  let n := d / daysPer4Years in
  let y := y + 4 * n in
  let d := d - daysPer4Years * n in
  let n := d / 365 in
  let n := n - n / 4 in
  let y := y + n in
  let d := d - 365 * n in
  (y + 1, d).

(** [absDate], second half: month and day of the month of a day of the
    year.  The month is estimated as if every month had 31 days, which is
    too low by at most one. *)
Definition monthDay (leap : bool) (yday : Z) : Z * Z :=
  let day := yday in
  if leap && (day =? 31 + 29 - 1) then (2, 29)
  else
    let day := if leap && (day >? 31 + 29 - 1) then day - 1 else day in
    let month := day / 31 in
    let end_ := daysBeforeAt (month + 1) in
    let '(month, begin) :=
      if day >=? end_ then (month + 1, end_)
      else (month, daysBeforeAt month) in
    (month + 1, day - begin + 1).

(** [absDate]: year, month, day and day of the year of a day count. *)
Definition absDate (days : Z) : Z * Z * Z * Z :=
  let '(year, yday) := yearDay days in
  let '(month, day) := monthDay (isLeap year) yday in
  (year, month, day, yday).

Definition daysOf (t : Time) : Z := t / (secondsPerDay * Second).

(** [t.Year()], [t.Month()], [t.Day()]. *)
Definition yearOf (t : Time) : Z := let '(y, _, _, _) := absDate (daysOf t) in y.
Definition monthOf (t : Time) : Z := let '(_, m, _, _) := absDate (daysOf t) in m.
Definition dayOf (t : Time) : Z := let '(_, _, d, _) := absDate (daysOf t) in d.

(** [t.Hour()], [t.Minute()], [t.Second()] and the nanosecond within the
    second. *)
Definition hourOf (t : Time) : Z := (t / Second) mod secondsPerDay / secondsPerHour.
Definition minuteOf (t : Time) : Z := (t / Second) mod secondsPerHour / secondsPerMinute.
Definition secondOf (t : Time) : Z := (t / Second) mod secondsPerMinute.
Definition nsecOf (t : Time) : Z := t mod Second.

(** [t.AddDate(years, months, days)]. *)
Definition AddDate (t : Time) (years months days : Z) : Time :=
  Date (yearOf t + years) (monthOf t + months) (dayOf t + days)
       (hourOf t) (minuteOf t) (secondOf t) (nsecOf t).

(* ------------------------------------------------------------------ *)
(** * Results and texts *)

(** A Go result [(T, error)]: the value when [err == nil], else the
    error's message. *)
Inductive result (A : Type) : Type :=
| Ok (a : A)
| Err (msg : string).
Arguments Ok {A} a.
Arguments Err {A} msg.

Definition isOk {A : Type} (r : result A) : bool :=
  match r with Ok _ => true | Err _ => false end.

(** Texts are Go strings: sequences of bytes. *)
Definition code (c : ascii) : Z := Z.of_N (N_of_ascii c).

Definition isDigit (c : ascii) : bool := (48 <=? code c) && (code c <=? 57).

Definition digitVal (c : ascii) : Z := code c - 48.

(** The value of a run of decimal digits, most significant first. *)
Fixpoint decimalFrom (acc : Z) (s : string) : Z :=
  match s with
  | EmptyString => acc
  | String c s' => decimalFrom (10 * acc + digitVal c) s'
  end.

Definition decimal (s : string) : Z := decimalFrom 0 s.

Fixpoint allDigits (s : string) : bool :=
  match s with
  | EmptyString => true
  | String c s' => isDigit c && allDigits s'
  end.

(** The longest prefix of [s] whose bytes satisfy [p], and the rest. *)
Fixpoint span (p : ascii -> bool) (s : string) : string * string :=
  match s with
  | EmptyString => (EmptyString, EmptyString)
  | String c s' =>
      if p c then let (tok, rest) := span p s' in (String c tok, rest)
      else (EmptyString, s)
  end.

(* ------------------------------------------------------------------ *)
(** * Package fmt: [Sscanf] with [%d] verbs and literal bytes

    The scanner reads runes.  Only space runes are consumed without being
    compared to an ASCII byte, so the embedding decodes UTF-8 exactly
    where it matters: [spaceRune] recognises the encodings of the runes of
    fmt's [space] table. *)

Definition byteIn (lo hi : Z) (c : ascii) : bool := (lo <=? code c) && (code c <=? hi).

(** [spaceRune s]: the rest of [s] after one leading space rune, if [s]
    starts with one. *)
Definition spaceRune (s : string) : option string :=
  match s with
  | String a r1 =>
      if byteIn 9 13 a || (code a =? 32) then Some r1
      else
        match r1 with
        | String b r2 =>
            if (code a =? 194) && ((code b =? 133) || (code b =? 160)) then Some r2
            else
              match r2 with
              | String c r3 =>
                  if (code a =? 225) && (code b =? 154) && (code c =? 128) then Some r3
                  else if (code a =? 226) && (code b =? 128)
                          && (byteIn 128 138 c || (code c =? 168) || (code c =? 169)
                              || (code c =? 175)) then Some r3
                  else if (code a =? 226) && (code b =? 129) && (code c =? 159) then Some r3
                  else if (code a =? 227) && (code b =? 128) && (code c =? 128) then Some r3
                  else None
              | EmptyString => None
              end
        | EmptyString => None
        end
  | EmptyString => None
  end.

(** [ss.SkipSpace] for [Sscanf], where a newline does not count as
    space: leading space runes are dropped, a newline is an error. *)
Fixpoint skipSpaceFuel (fuel : nat) (s : string) : result string :=
  match fuel with
  | O => Ok s
  | S fuel' =>
      match s with
      | EmptyString => Ok s
      | String c _ =>
          if code c =? 10 then Err "unexpected newline"
          else
            match spaceRune s with
            | Some rest => skipSpaceFuel fuel' rest
            | None => Ok s
            end
      end
  end.

Definition SkipSpace (s : string) : result string :=
  skipSpaceFuel (String.length s) s.

Definition isSign (c : ascii) : bool := (code c =? 43) || (code c =? 45).

(** The digits [%d] accepts while it collects its token: [0-9] and [_]. *)
Definition isNumberByte (c : ascii) : bool := isDigit c || (code c =? 95).

(** [strconv.ParseInt(tok, 10, 64)] on a token made of an optional sign
    and bytes of [isNumberByte]. *)
Definition ParseInt (neg : bool) (digits : string) : result Z :=
  if allDigits digits then
    let v := if neg then - decimal digits else decimal digits in
    if (minInt64 <=? v) && (v <=? maxInt64) then Ok v
    else Err "value out of range"
  else Err "invalid syntax".

(** [ss.scanInt] for the verb [%d] and a 64-bit operand. *)
Definition scanInt (s : string) : result (Z * string) :=
  match SkipSpace s with
  | Err e => Err e
  | Ok s1 =>
      match s1 with
      | EmptyString => Err "unexpected EOF"
      | String c r =>
          let '(neg, s2) := if isSign c then (code c =? 45, r) else (false, s1) in
          match s2 with
          | EmptyString => Err "unexpected EOF"
          | String d _ =>
              if isNumberByte d then
                let (tok, s3) := span isNumberByte s2 in
                match ParseInt neg tok with
                | Ok v => Ok (v, s3)
                | Err e => Err e
                end
              else Err "expected integer"
          end
      end
  end.

(** [ss.doScanf]: the operands scanned so far and the error, if any.  A
    verb [%d] scans an integer; any other byte of the format must be the
    next byte of the input. *)
Fixpoint doScanf (format : string) (s : string) (acc : list Z)
  : list Z * option string :=
  match format with
  | EmptyString => (acc, None)
  | String "%"%char (String "d"%char format') =>
      match scanInt s with
      | Ok (v, s') => doScanf format' s' (acc ++ [v])
      | Err e => (acc, Some e)
      end
  | String f format' =>
      match s with
      | EmptyString => (acc, Some "unexpected EOF"%string)
      | String c s' =>
          if (code f =? code c) then doScanf format' s' acc
          else (acc, Some "input does not match format"%string)
      end
  end.

Definition Sscanf (str format : string) : list Z * option string :=
  doScanf format str [].

(* ------------------------------------------------------------------ *)
(** * Package time: [ParseInLocation]

    Restricted to the elements of the reference time that occur in the
    layouts of [specs]: [2006], [01], [02], [15], [04] and [05].  Every
    other byte of a layout is literal text. *)

Inductive stdChunk : Type :=
| stdNone
| stdLongYear
| stdZeroMonth
| stdZeroDay
| stdHour
| stdZeroMinute
| stdZeroSecond.

Fixpoint drop (n : nat) (s : string) : string :=
  match n, s with
  | S n', String _ s' => drop n' s'
  | _, _ => s
  end.

Fixpoint take (n : nat) (s : string) : string :=
  match n, s with
  | S n', String c s' => String c (take n' s')
  | _, _ => EmptyString
  end.

(** [nextStdChunk(layout)]: the literal prefix, the first element and the
    rest of the layout. *)
Fixpoint nextStdChunk (layout : string) : string * stdChunk * string :=
  match layout with
  | EmptyString => (EmptyString, stdNone, EmptyString)
  | String c rest =>
      if prefix "2006" layout then (EmptyString, stdLongYear, drop 4 layout)
      else if prefix "01" layout then (EmptyString, stdZeroMonth, drop 2 layout)
      else if prefix "02" layout then (EmptyString, stdZeroDay, drop 2 layout)
      else if prefix "15" layout then (EmptyString, stdHour, drop 2 layout)
      else if prefix "04" layout then (EmptyString, stdZeroMinute, drop 2 layout)
      else if prefix "05" layout then (EmptyString, stdZeroSecond, drop 2 layout)
      else let '(p, std, suffix) := nextStdChunk rest in (String c p, std, suffix)
  end.

Definition errBad : string := "bad value for field".

Fixpoint cutspace (s : string) : string :=
  match s with
  | String c s' => if code c =? 32 then cutspace s' else s
  | EmptyString => s
  end.

(** [skip(value, prefix)]: a space of the layout stands for any number of
    spaces of the value, every other byte for itself.  [inSpaces] says
    that the bytes of the prefix just before were spaces, which
    [cutspace(prefix)] removes together with the first one. *)
Fixpoint skipFrom (inSpaces : bool) (value pre : string) : result string :=
  match pre with
  | EmptyString => Ok value
  | String p pre' =>
      if code p =? 32 then
        if inSpaces then skipFrom true value pre'
        else
          match value with
          | String v _ =>
              if code v =? 32 then skipFrom true (cutspace value) pre'
              else Err errBad
          | EmptyString => skipFrom true value pre'
          end
      else
        match value with
        | String v value' =>
            if code v =? code p then skipFrom false value' pre' else Err errBad
        | EmptyString => Err errBad
        end
  end.

Definition skip (value pre : string) : result string := skipFrom false value pre.

(** [getnum(s, fixed)]: one or two digits, exactly two when [fixed]. *)
Definition getnum (s : string) (fixed : bool) : result (Z * string) :=
  match s with
  | String a r =>
      if isDigit a then
        match r with
        | String b r' =>
            if isDigit b then Ok (digitVal a * 10 + digitVal b, r')
            else if fixed then Err errBad else Ok (digitVal a, r)
        | EmptyString => if fixed then Err errBad else Ok (digitVal a, r)
        end
      else Err errBad
  | EmptyString => Err errBad
  end.

Definition commaOrPeriod (c : ascii) : bool := (code c =? 46) || (code c =? 44).

(** The fields [Parse] collects; month and day start at [-1]. *)
Record fields : Type := mkFields {
  fyear : Z; fmonth : Z; fday : Z;
  fhour : Z; fmin : Z; fsec : Z; fnsec : Z
}.

Definition noFields : fields := mkFields 0 (-1) (-1) 0 0 0 0.

(** A fractional second in the value that the layout does not ask for:
    [parseNanoseconds] reads at most nine digits and scales them, the
    further digits are dropped. *)
Definition fraction (value : string) : option (Z * string) :=
  match value with
  | String sep (String d r) =>
      if commaOrPeriod sep && isDigit d then
        let (ds, rest) := span isDigit (String d r) in
        let ds9 := take 9 ds in
        Some (decimal ds9 * 10 ^ (9 - Z.of_nat (String.length ds9)), rest)
      else None
  | _ => None
  end.

(** One element of the layout matched against the value. *)
Definition parseChunk (std : stdChunk) (value : string) (f : fields)
  : result (fields * string) :=
  match std with
  | stdNone => Ok (f, value)
  | stdLongYear =>
      if (4 <=? String.length value)%nat && allDigits (take 4 value) then
        Ok (mkFields (decimal (take 4 value)) (fmonth f) (fday f)
                     (fhour f) (fmin f) (fsec f) (fnsec f), drop 4 value)
      else Err errBad
  | stdZeroMonth =>
      match getnum value true with
      | Err e => Err e
      | Ok (m, value') =>
          if (m <=? 0) || (12 <? m) then Err "month out of range"
          else Ok (mkFields (fyear f) m (fday f)
                            (fhour f) (fmin f) (fsec f) (fnsec f), value')
      end
  | stdZeroDay =>
      match getnum value true with
      | Err e => Err e
      | Ok (d, value') =>
          Ok (mkFields (fyear f) (fmonth f) d
                       (fhour f) (fmin f) (fsec f) (fnsec f), value')
      end
  | stdHour =>
      match getnum value false with
      | Err e => Err e
      | Ok (h, value') =>
          if (h <? 0) || (24 <=? h) then Err "hour out of range"
          else Ok (mkFields (fyear f) (fmonth f) (fday f)
                            h (fmin f) (fsec f) (fnsec f), value')
      end
  | stdZeroMinute =>
      match getnum value true with
      | Err e => Err e
      | Ok (m, value') =>
          if (m <? 0) || (60 <=? m) then Err "minute out of range"
          else Ok (mkFields (fyear f) (fmonth f) (fday f)
                            (fhour f) m (fsec f) (fnsec f), value')
      end
  | stdZeroSecond =>
      match getnum value true with
      | Err e => Err e
      | Ok (s, value') =>
          if (s <? 0) || (60 <=? s) then Err "second out of range"
          else
            match fraction value' with
            | Some (ns, value'') =>
                Ok (mkFields (fyear f) (fmonth f) (fday f)
                             (fhour f) (fmin f) s ns, value'')
            | None =>
                Ok (mkFields (fyear f) (fmonth f) (fday f)
                             (fhour f) (fmin f) s (fnsec f), value')
            end
      end
  end.

(** The loop of [Parse]: one element of the layout per pass, until the
    layout has no element left; then the value must be used up. *)
Fixpoint parseLoop (fuel : nat) (layout value : string) (f : fields)
  : result fields :=
  match fuel with
  | O => Err errBad
  | S fuel' =>
      let '(pre, std, suffix) := nextStdChunk layout in
      match skip value pre with
      | Err e => Err e
      | Ok value1 =>
          match std with
          | stdNone =>
              match value1 with
              | EmptyString => Ok f
              | String _ _ => Err "extra text"
              end
          | _ =>
              match parseChunk std value1 f with
              | Err e => Err e
              | Ok (f', value2) => parseLoop fuel' suffix value2 f'
              end
          end
      end
  end.

(** [time.ParseInLocation(layout, value, time.Local)]: a missing month or
    day is 1, a missing year is 0, and the day must exist in its month. *)
Definition ParseInLocation (layout value : string) : result Time :=
  match parseLoop (S (String.length layout)) layout value noFields with
  | Err e => Err e
  | Ok f =>
      let month := if fmonth f <? 0 then 1 else fmonth f in
      let day := if fday f <? 0 then 1 else fday f in
      if (day <? 1) || (day >? daysIn month (fyear f)) then Err "day out of range"
      else Ok (Date (fyear f) month day (fhour f) (fmin f) (fsec f) (fnsec f))
  end.

(* ------------------------------------------------------------------ *)
(** * The program: time specifications *)

(** What a time specification lacks, if anything ([iota] constants). *)
Definition full : Z := 0.
Definition noyear : Z := 1.
Definition nomonth : Z := 2.

Record tSpec : Type := mkSpec {
  spec : string;
  lacks : Z
}.

Definition specs : list tSpec := [
  mkSpec "2006-01-02 15:04" full;
  mkSpec "2006-01-02 15:04:05" full;
  mkSpec "2006-01-02" full;
  mkSpec "01-02 15:04" noyear;
  mkSpec "01-02 15:04:05" noyear;
  mkSpec "01-02" noyear;
  mkSpec "02 15:04" nomonth;
  mkSpec "02 15:04:05" nomonth;
  mkSpec "02" nomonth
].

(** The two [Sscanf] calls of [parseHHMM] and what they leave in [hr],
    [min] and [secs]; an operand that was not scanned keeps its value. *)
Definition scanHHMM (tspec : string) : result (Z * Z * Z) :=
  let '(v1, e1) := Sscanf tspec "%d:%d:%d" in
  let hr := nth 0 v1 0 in
  let min := nth 1 v1 0 in
  let secs := nth 2 v1 0 in
  match e1 with
  | None => Ok (hr, min, secs)
  | Some _ =>
      let secs := 0 in
      let '(v2, e2) := Sscanf tspec "%d:%d" in
      let hr := nth 0 v2 hr in
      let min := nth 1 v2 min in
      match e2 with
      | None => Ok (hr, min, secs)
      | Some e => Err e
      end
  end.

(** [parseHHMM]: the simple form [HH:MM[:SS]], rolled over into tomorrow
    when it is in the past. *)
Definition parseHHMM (tspec : string) (w : World) : result Time * World :=
  match scanHHMM tspec with
  | Err e => (Err e, w)
  | Ok (hr, min, secs) =>
      let (now, w1) := timeNow w in
      let tgt := Date (yearOf now) (monthOf now) (dayOf now) hr min secs 0 in
      if (hourOf now =? hr) && (minuteOf now =? min) && (secondOf now >=? secs)
      then (Ok tgt, w1)
      else
        let tgt := if Before tgt now then Add tgt (Hour * 24) else tgt in
        (Ok tgt, w1)
  end.

(** The completion of a parsed time by the fields its layout lacks. *)
Definition complete (now : Time) (lacking : Z) (t : Time) : Time :=
  let t := if lacking >=? noyear then AddDate t (yearOf now) 0 0 else t in
  let t := if lacking >=? nomonth then AddDate t 0 (monthOf now - 1) 0 else t in
  t.

(** [for _, spec := range specs { ... }] of [parseTime]. *)
Fixpoint rangeSpecs (now : Time) (l : list tSpec) (tspec : string) : result Time :=
  match l with
  | [] => Err "cannot parse time argument"
  | sp :: l' =>
      match ParseInLocation (spec sp) tspec with
      | Err _ => rangeSpecs now l' tspec
      | Ok t => Ok (complete now (lacks sp) t)
      end
  end.

(** [parseTime]: first the simple form, then the collection of layouts. *)
Definition parseTime (tspec : string) (w : World) : result Time * World :=
  match parseHHMM tspec w with
  | (Ok t, w1) => (Ok t, w1)
  | (Err _, w1) =>
      let (now, w2) := timeNow w1 in
      (rangeSpecs now specs tspec, w2)
  end.

(** [main] after flag parsing: the arguments are joined with spaces and
    parsed, and the program waits for the target.  Messages to the
    terminal are left out. *)
Definition main (elapse : ClockModel) (fuel : nat) (args : list string) (w : World)
  : option World :=
  match args with
  | [] => Some w
  | _ =>
      match parseTime (String.concat " " args) w with
      | (Err _, w1) => Some w1
      | (Ok tgt, w1) => waitLoop elapse fuel tgt w1
      end
  end.

(** The claim about the number of sleeps, in the spec's words: under a
    stable clock it is at most [a * log2 (T / 1 minute) + b], for constants
    [a] and [b] that do not depend on the distance [T] to the target. *)
Definition logarithmicSleeps (a b : Z) : Prop :=
  forall (tgt : Time) (w w' : World) (fuel : nat),
    Minute <= tgt - wallclock w ->
    waitLoop stableClock fuel tgt w = Some w' ->
    Z.of_nat (List.length (sleepsOf w w'))
    <= a * Z.log2 ((tgt - wallclock w) / Minute) + b.

(* ------------------------------------------------------------------ *)
(** * Vocabulary of the properties *)

Definition leapDay (leap : bool) : Z := if leap then 1 else 0.

(** A date of the calendar and a time of the day. *)
Definition validDate (year month day : Z) : Prop :=
  1 <= month <= 12 /\ 1 <= day <= daysIn month year.

Definition validClock (hour min sec nsec : Z) : Prop :=
  0 <= hour <= 23 /\ 0 <= min <= 59 /\ 0 <= sec <= 59 /\ 0 <= nsec < Second.

(** The day of the year, counted from 0, of a date. *)
Definition ydayOf (leap : bool) (month day : Z) : Z :=
  daysBeforeAt (month - 1) + leapDay (leap && (month >=? 3)) + (day - 1).

(** Days from the epoch to the first day of a month; the month may lie
    outside 1..12 and carries into the year as in [Date]. *)
Definition monthStart (year month : Z) : Z :=
  let '(year, m) := norm year (month - 1) 12 in
  daysSinceEpoch year + daysBeforeAt m + leapDay (isLeap year && (m + 1 >=? 3)).

Definition nsPerDay : Z := secondsPerDay * Second.

(** The integers between [lo] and [lo + n - 1]. *)
Definition zrange (lo n : nat) : list Z := map Z.of_nat (seq lo n).

Definition pairEqb (p q : Z * Z) : bool :=
  (fst p =? fst q) && (snd p =? snd q).

(** [daysIn] by the kind of year. *)
Definition daysInLeap (leap : bool) (m : Z) : Z :=
  if (m =? 2) && leap then 29 else daysBeforeAt m - daysBeforeAt (m - 1).

(** A layout that does not parse a text. *)
Definition fails (tspec : string) (sp : tSpec) : Prop :=
  isOk (ParseInLocation (spec sp) tspec) = false.

(** The elements of a layout, in the order [parseLoop] meets them. *)
Fixpoint chunksOf (fuel : nat) (layout : string) : list stdChunk :=
  match fuel with
  | O => []
  | S fuel' =>
      let '(_, std, suffix) := nextStdChunk layout in
      match std with
      | stdNone => []
      | _ => std :: chunksOf fuel' suffix
      end
  end.

Definition elements (layout : string) : list stdChunk :=
  chunksOf (S (String.length layout)) layout.

(** The field an element of the layout sets. *)
Definition fieldOf (std : stdChunk) (f : fields) : Z :=
  match std with
  | stdNone => 0
  | stdLongYear => fyear f
  | stdZeroMonth => fmonth f
  | stdZeroDay => fday f
  | stdHour => fhour f
  | stdZeroMinute => fmin f
  | stdZeroSecond => fsec f
  end.

(** Fields as [parseLoop] keeps them: month and day unset or of two
    digits, the time of the day in range. *)
Definition wfFields (f : fields) : Prop :=
  (fmonth f = -1 \/ 1 <= fmonth f <= 12) /\
  (fday f = -1 \/ 0 <= fday f <= 99) /\
  validClock (fhour f) (fmin f) (fsec f) (fnsec f).

(** A nonempty run of decimal digits. *)
Definition isNumeral (s : string) : bool :=
  match s with
  | EmptyString => false
  | String _ _ => allDigits s
  end.

(** A text that does not go on with a byte [%d] would collect. *)
Definition endsNumber (s : string) : bool :=
  match s with
  | EmptyString => true
  | String c _ => negb (isNumberByte c)
  end.




(** The sum of a list of durations. *)
Definition total (l : list Duration) : Duration := fold_right Z.add 0 l.

(** A text that does not go on with a colon. *)
Definition noColon (s : string) : bool :=
  match s with
  | EmptyString => true
  | String c _ => negb (code c =? 58)
  end.

(** A text that has exactly the shape of a layout, field widths and
    separators: the same length, a digit wherever the layout has a digit
    and the layout's own byte everywhere else. *)
Fixpoint conforms (layout text : string) : bool :=
  match layout, text with
  | EmptyString, EmptyString => true
  | String l layout', String c text' =>
      (if isDigit l then isDigit c else code c =? code l) && conforms layout' text'
  | _, _ => false
  end.

(** The claim in the spec's words: the layouts of [specs] are matched
    strictly, a text they parse conforms exactly to the layout's field
    widths and separators. *)
Definition strictLayoutMatch : Prop :=
  forall (sp : tSpec) (tspec : string),
    In sp specs ->
    isOk (ParseInLocation (spec sp) tspec) = true ->
    conforms (spec sp) tspec = true.

(** The year as [400 a + 100 b + 4 c + e + 1]. *)
Record yearParts (y a b c e : Z) : Prop := {
  yp_year : y = 400 * a + 100 * b + 4 * c + e + 1;
  yp_b : 0 <= b <= 3;
  yp_c : 0 <= c <= 24;
  yp_e : 0 <= e <= 3
}.

(* ------------------------------------------------------------------ *)
(** * Tactics *)

Ltac units :=
  cbv [Hour Minute Second Millisecond Microsecond Nanosecond
       maxDuration minDuration maxInt64 minInt64] in *;
  change (2 ^ 63) with 9223372036854775808 in *.

Ltac bools :=
  repeat match goal with
         | H : (_ || _) = false |- _ => apply orb_false_iff in H; destruct H
         | H : (_ && _) = true |- _ => apply andb_true_iff in H; destruct H
         | H : (_ <? _) = false |- _ => apply Z.ltb_ge in H
         | H : (_ <=? _) = false |- _ => apply Z.leb_gt in H
         | H : (_ >? _) = false |- _ => rewrite Z.gtb_ltb in H
         | H : (_ <? _) = true |- _ => apply Z.ltb_lt in H
         | H : (_ <=? _) = true |- _ => apply Z.leb_le in H
         end.

Ltac closed := vm_compute; repeat split; try (intro; discriminate); try reflexivity.

(* ================================================================== *)
(** * Properties of the wait loop *)

Lemma Sub_exact (t u : Time) :
  minDuration <= t - u <= maxDuration -> Sub t u = t - u.
Proof.
  intros H. unfold Sub.
  destruct (Z.gtb_spec (t - u) maxDuration); [lia|].
  destruct (Z.ltb_spec (t - u) minDuration); lia.
Qed.

Lemma Sub_clamp (t u : Time) :
  Sub t u = Z.max minDuration (Z.min maxDuration (t - u)).
Proof.
  unfold Sub.
  destruct (Z.gtb_spec (t - u) maxDuration);
    [|destruct (Z.ltb_spec (t - u) minDuration)]; units; lia.
Qed.

Lemma Sub_mono (t u u' : Time) : u' <= u -> Sub t u <= Sub t u'.
Proof. intros H. rewrite !Sub_clamp. lia. Qed.

Lemma sleepSpan_bounds (dur : Duration) :
  Second <= dur -> 0 < sleepSpan dur <= Hour.
Proof.
  intros H. unfold sleepSpan.
  destruct (Z.gtb_spec dur (2 * Hour)); [units; lia|].
  destruct (Z.gtb_spec dur Minute).
  - rewrite Z.quot_div_nonneg by (units; lia).
    units. split; [apply Z.div_str_pos; lia|].
    apply Z.div_le_upper_bound; lia.
  - units; lia.
Qed.

Lemma iteration_Return (tgt now : Time) :
  iteration tgt now = Return <-> tgt - now < Second.
Proof.
  unfold iteration, After. rewrite Sub_clamp.
  destruct (Z.ltb_spec tgt now).
  - split; [units; lia | reflexivity].
  - destruct (Z.ltb_spec (Z.max minDuration (Z.min maxDuration (tgt - now))) Second).
    + split; [units; lia | reflexivity].
    + split; [discriminate | units; lia].
Qed.

Lemma iteration_Sleep (tgt now : Time) :
  Second <= tgt - now -> iteration tgt now = Sleep (sleepSpan (Sub tgt now)).
Proof.
  intros H. unfold iteration, After.
  destruct (Z.ltb_spec tgt now); [units; lia|].
  destruct (Z.ltb_spec (Sub tgt now) Second) as [L|L]; [|reflexivity].
  rewrite Sub_clamp in L. units; lia.
Qed.

Lemma iteration_Sleep_inv (tgt now : Time) (d : Duration) :
  iteration tgt now = Sleep d ->
  Second <= tgt - now /\ Second <= Sub tgt now /\ d = sleepSpan (Sub tgt now).
Proof.
  intros H.
  assert (R : Second <= tgt - now).
  { destruct (Z.lt_ge_cases (tgt - now) Second) as [L|L]; [|exact L].
    apply iteration_Return in L. congruence. }
  rewrite (iteration_Sleep _ _ R) in H. injection H as <-.
  repeat split; try assumption. rewrite Sub_clamp. units; lia.
Qed.

(** C1. Whenever a pass of the wait loop sleeps, the remaining duration
    [Sub tgt now] is at least one second and the sleep is exactly one hour
    if more than two hours remain, half of the remaining duration if it
    lies between one minute (excluded) and two hours (included), and the
    remaining duration itself if it is at most one minute. *)
Theorem C1_sleep_duration (tgt now : Time) (d : Duration) :
  iteration tgt now = Sleep d ->
  let remaining := Sub tgt now in
  Second <= remaining /\
  remaining = Z.min (tgt - now) maxDuration /\
  (2 * Hour < remaining -> d = Hour) /\
  (Minute < remaining <= 2 * Hour ->
     d = remaining ÷ 2 /\ d = remaining / 2 /\ remaining = tgt - now) /\
  (remaining <= Minute -> d = remaining /\ remaining = tgt - now).
Proof.
  intros H remaining. apply iteration_Sleep_inv in H as (R & S & ->).
  fold remaining in S |- *.
  assert (E : remaining = Z.min (tgt - now) maxDuration).
  { unfold remaining. rewrite Sub_clamp. units; lia. }
  split; [exact S|]. split; [exact E|].
  unfold sleepSpan.
  destruct (Z.gtb_spec remaining (2 * Hour));
    [|destruct (Z.gtb_spec remaining Minute)].
  - repeat split; intros; try reflexivity; units; lia.
  - split; [intros; lia|]. split; [|intros; lia].
    intros _. split; [reflexivity|]. split.
    + apply Z.quot_div_nonneg; units; lia.
    + units; lia.
  - split; [intros; units; lia|]. split; [intros; lia|].
    intros _. split; [reflexivity | units; lia].
Qed.

Lemma C1_sleep_duration_witness :
  iteration (90 * Minute) 0 = Sleep (45 * Minute) /\
  Second <= Sub (90 * Minute) 0 /\
  Sub (90 * Minute) 0 = Z.min (90 * Minute - 0) maxDuration /\
  (2 * Hour < Sub (90 * Minute) 0 -> 45 * Minute = Hour) /\
  (Minute < Sub (90 * Minute) 0 <= 2 * Hour ->
     45 * Minute = Sub (90 * Minute) 0 ÷ 2 /\
     45 * Minute = Sub (90 * Minute) 0 / 2 /\
     Sub (90 * Minute) 0 = 90 * Minute - 0) /\
  (Sub (90 * Minute) 0 <= Minute ->
     45 * Minute = Sub (90 * Minute) 0 /\ Sub (90 * Minute) 0 = 90 * Minute - 0).
Proof.
  split; [reflexivity|].
  apply (C1_sleep_duration (90 * Minute) 0 (45 * Minute)). reflexivity.
Defined.

(** C2. A pass of the wait loop returns without sleeping exactly when the
    fresh reading is at or after the target or less than one second
    remains; otherwise it sleeps for a positive duration of at most one
    hour.  If the clock is set back, the pass at the earlier reading still
    sleeps, for a positive duration, with a remaining duration that is not
    smaller, and larger whenever it fits a [Duration]. *)
Theorem C2_iteration_returns_or_sleeps (tgt now : Time) :
  (iteration tgt now = Return <-> (tgt <= now \/ Sub tgt now < Second)) /\
  (iteration tgt now = Return \/
   exists d, iteration tgt now = Sleep d /\ 0 < d <= Hour) /\
  (forall (now' : Time) (d : Duration),
      now' < now -> iteration tgt now = Sleep d ->
      exists d', iteration tgt now' = Sleep d' /\ 0 < d' <= Hour /\
                 Sub tgt now <= Sub tgt now' /\
                 (tgt - now' <= maxDuration -> Sub tgt now < Sub tgt now')).
Proof.
  split; [|split].
  - rewrite iteration_Return, Sub_clamp. units; lia.
  - destruct (Z.lt_ge_cases (tgt - now) Second) as [L|L].
    + left. now apply iteration_Return.
    + right. exists (sleepSpan (Sub tgt now)).
      split; [now apply iteration_Sleep|].
      apply sleepSpan_bounds. rewrite Sub_clamp. units; lia.
  - intros now' d J H. apply iteration_Sleep_inv in H as (R & S & _).
    exists (sleepSpan (Sub tgt now')).
    assert (M : Sub tgt now <= Sub tgt now') by (apply Sub_mono; lia).
    split; [apply iteration_Sleep; lia|].
    split; [apply sleepSpan_bounds; lia|].
    split; [exact M|].
    intros F. rewrite !Sub_clamp. units; lia.
Qed.

Lemma C2_iteration_returns_or_sleeps_witness :
  iteration (10 * Hour) (10 * Hour) = Return /\
  iteration (10 * Hour) (10 * Hour - 700 * Millisecond) = Return /\
  (exists d', iteration (10 * Hour) (5 * Hour - 3 * Hour) = Sleep d' /\
              0 < d' <= Hour /\
              Sub (10 * Hour) (5 * Hour) <= Sub (10 * Hour) (5 * Hour - 3 * Hour) /\
              (10 * Hour - (5 * Hour - 3 * Hour) <= maxDuration ->
               Sub (10 * Hour) (5 * Hour) < Sub (10 * Hour) (5 * Hour - 3 * Hour))).
Proof.
  split; [|split].
  - apply (proj1 (C2_iteration_returns_or_sleeps (10 * Hour) (10 * Hour))).
    left. lia.
  - apply (proj1 (C2_iteration_returns_or_sleeps _ _)).
    right. vm_compute. reflexivity.
  - apply (proj2 (proj2 (C2_iteration_returns_or_sleeps (10 * Hour) (5 * Hour)))
             (5 * Hour - 3 * Hour) Hour).
    + vm_compute. reflexivity.
    + reflexivity.
Defined.

(** ** The loop under a stable clock *)

Lemma waitLoop_more_fuel (e : ClockModel) (f k : nat) (tgt : Time) (w w' : World) :
  waitLoop e f tgt w = Some w' -> waitLoop e (f + k) tgt w = Some w'.
Proof.
  revert w. induction f as [|f IH]; intros w H; [discriminate|].
  cbn [waitLoop Nat.add] in *. unfold timeNow in *.
  destruct (iteration tgt (wallclock w)); [exact H | now apply IH].
Qed.

Lemma waitLoop_deterministic (e : ClockModel) (f1 f2 : nat) (tgt : Time)
      (w w1 w2 : World) :
  waitLoop e f1 tgt w = Some w1 -> waitLoop e f2 tgt w = Some w2 -> w1 = w2.
Proof.
  intros H1 H2.
  apply (waitLoop_more_fuel _ _ f2) in H1.
  apply (waitLoop_more_fuel _ _ f1) in H2.
  rewrite Nat.add_comm in H2. congruence.
Qed.

(** A run only appends to the log of sleeps. *)
Lemma skipn_length_app {A : Type} (l ds : list A) :
  skipn (List.length l) (l ++ ds) = ds.
Proof.
  rewrite skipn_app, skipn_all, Nat.sub_diag. reflexivity.
Qed.

Lemma waitLoop_appends (e : ClockModel) (f : nat) (tgt : Time) (w w' : World) :
  waitLoop e f tgt w = Some w' -> exists ds, slept w' = slept w ++ ds.
Proof.
  revert w. induction f as [|f IH]; intros w H; [discriminate|].
  cbn [waitLoop] in H. unfold timeNow in H.
  destruct (iteration tgt (wallclock w)) as [|d].
  - injection H as <-. exists []. cbn [slept]. now rewrite app_nil_r.
  - apply IH in H as [ds H]. cbn [timeSleep slept] in H.
    exists (d :: ds). rewrite H, <- app_assoc. reflexivity.
Qed.

Lemma waitLoop_log (e : ClockModel) (f : nat) (tgt : Time) (w w' : World) :
  waitLoop e f tgt w = Some w' ->
  slept w' = slept w ++ sleepsOf w w'.
Proof.
  intros H. apply waitLoop_appends in H as [ds H].
  unfold sleepsOf. rewrite H at 2. now rewrite skipn_length_app.
Qed.

Lemma sleepsOf_step (e : ClockModel) (f : nat) (tgt : Time) (w w' : World)
      (d : Duration) (r : nat) (t : Time) :
  waitLoop e f tgt (mkWorld t r (slept w ++ [d])) = Some w' ->
  sleepsOf w w' = d :: sleepsOf (mkWorld t r (slept w ++ [d])) w'.
Proof.
  intros H. apply waitLoop_log in H. cbn [slept] in H.
  unfold sleepsOf at 1. rewrite H at 1.
  rewrite <- app_assoc. rewrite skipn_length_app. reflexivity.
Qed.

Lemma sleepsOf_refl (t : Time) (r : nat) (w : World) :
  sleepsOf w (mkWorld t r (slept w)) = [].
Proof. unfold sleepsOf. cbn [slept]. now rewrite skipn_all. Qed.

Lemma loop_return (e : ClockModel) (f : nat) (tgt : Time) (w : World) :
  tgt - wallclock w < Second ->
  waitLoop e (S f) tgt w = Some (mkWorld (wallclock w) (S (reads w)) (slept w)).
Proof.
  intros H. apply iteration_Return in H.
  cbn [waitLoop]. unfold timeNow. now rewrite H.
Qed.

Lemma loop_sleep (f : nat) (tgt : Time) (w : World) :
  Second <= tgt - wallclock w ->
  waitLoop stableClock (S f) tgt w =
  waitLoop stableClock f tgt
    (mkWorld (wallclock w + sleepSpan (Sub tgt (wallclock w)))
             (S (reads w))
             (slept w ++ [sleepSpan (Sub tgt (wallclock w))])).
Proof.
  intros H. apply iteration_Sleep in H.
  cbn [waitLoop]. unfold timeNow. rewrite H. reflexivity.
Qed.

(** Within a minute of the target: one sleep of the whole remaining
    duration, then the loop returns. *)
Lemma last_sleep (f : nat) (tgt : Time) (w : World) :
  Second <= tgt - wallclock w <= Minute ->
  exists w', waitLoop stableClock (S (S f)) tgt w = Some w' /\
             sleepsOf w w' = [tgt - wallclock w].
Proof.
  intros H. rewrite loop_sleep by lia.
  assert (E : sleepSpan (Sub tgt (wallclock w)) = tgt - wallclock w).
  { rewrite Sub_exact by (units; lia). unfold sleepSpan.
    destruct (Z.gtb_spec (tgt - wallclock w) (2 * Hour)); [units; lia|].
    destruct (Z.gtb_spec (tgt - wallclock w) Minute); [lia | reflexivity]. }
  rewrite E.
  eexists. split.
  - apply loop_return. cbn [wallclock]. units; lia.
  - cbn [wallclock reads slept]. unfold sleepsOf. cbn [slept].
    now rewrite skipn_length_app.
Qed.

(** Between a minute and two hours: the remaining duration is halved,
    rounding up. *)
Lemma halving_step (tgt : Time) (w : World) :
  Minute < tgt - wallclock w <= 2 * Hour ->
  let d := sleepSpan (Sub tgt (wallclock w)) in
  d = (tgt - wallclock w) / 2 /\
  Second <= tgt - (wallclock w + d) /\
  2 * (tgt - (wallclock w + d)) <= tgt - wallclock w + 1.
Proof.
  intros H d. subst d. rewrite Sub_exact by (units; lia). unfold sleepSpan.
  destruct (Z.gtb_spec (tgt - wallclock w) (2 * Hour)); [lia|].
  destruct (Z.gtb_spec (tgt - wallclock w) Minute); [|lia].
  rewrite Z.quot_div_nonneg by (units; lia).
  split; [reflexivity|]. units.
  pose proof (Z.div_mod (tgt - wallclock w) 2 ltac:(lia)).
  pose proof (Z.mod_pos_bound (tgt - wallclock w) 2 ltac:(lia)). lia.
Qed.

Lemma halving_phase (k : nat) (tgt : Time) (w : World) :
  tgt - wallclock w <= 2 ^ Z.of_nat k * Minute ->
  tgt - wallclock w <= 2 * Hour ->
  exists w', waitLoop stableClock (2 + k) tgt w = Some w' /\
             (List.length (sleepsOf w w') <= k + 1)%nat.
Proof.
  revert w. induction k as [|k IH]; intros w B T.
  - destruct (Z.lt_ge_cases (tgt - wallclock w) Second) as [L|L].
    + eexists. split; [apply loop_return; exact L|].
      rewrite sleepsOf_refl. cbn. lia.
    + destruct (last_sleep 0 tgt w) as (w' & R & E).
      { change (2 ^ Z.of_nat 0) with 1 in B. lia. }
      exists w'. split; [exact R|]. rewrite E. cbn. lia.
  - destruct (Z.lt_ge_cases (tgt - wallclock w) Second) as [L|L].
    { eexists. split; [apply loop_return; exact L|].
      rewrite sleepsOf_refl. cbn. lia. }
    destruct (Z.le_gt_cases (tgt - wallclock w) Minute) as [M|M].
    { destruct (last_sleep (S k) tgt w) as (w' & R & E); [lia|].
      exists w'. split; [exact R|]. rewrite E. cbn. lia. }
    pose proof (halving_step tgt w ltac:(lia)) as (D & S1 & S2).
    cbn [Nat.add]. rewrite loop_sleep by lia.
    set (w1 := mkWorld _ _ _).
    destruct (IH w1) as (w' & R & E).
    + subst w1. cbn [wallclock].
      rewrite Nat2Z.inj_succ, Z.pow_succ_r in B by lia.
      clear IH. set (p := 2 ^ Z.of_nat k) in *. clearbody p.
      units. lia.
    + subst w1. cbn [wallclock]. units. lia.
    + exists w'. split; [exact R|].
      subst w1. rewrite (sleepsOf_step _ _ _ _ _ _ _ _ R). cbn [List.length]. lia.
Qed.

(** More than two hours away: one hour at a time. *)
Lemma hour_step (tgt : Time) (w : World) :
  2 * Hour < tgt - wallclock w -> sleepSpan (Sub tgt (wallclock w)) = Hour.
Proof.
  intros H. unfold sleepSpan.
  destruct (Z.gtb_spec (Sub tgt (wallclock w)) (2 * Hour)) as [|N]; [reflexivity|].
  rewrite Sub_clamp in N. units; lia.
Qed.

Lemma hour_phase (h : nat) (tgt : Time) (w : World) :
  2 * Hour < tgt - wallclock w <= (Z.of_nat h + 2) * Hour ->
  exists w', waitLoop stableClock (9 + h) tgt w = Some w' /\
             (List.length (sleepsOf w w') <= h + 8)%nat.
Proof.
  revert w. induction h as [|h IH]; intros w B; [cbn in B; lia|].
  cbn [Nat.add]. rewrite loop_sleep by (units; lia).
  rewrite hour_step by lia.
  set (w1 := mkWorld _ _ _).
  destruct (Z.le_gt_cases (tgt - wallclock w1) (2 * Hour)) as [T|T].
  - destruct (halving_phase 7 tgt w1) as (w' & R & E); [|exact T|].
    + change (2 ^ Z.of_nat 7) with 128. units; lia.
    + exists w'. split.
      * apply (waitLoop_more_fuel _ _ h) in R. exact R.
      * subst w1. apply (waitLoop_more_fuel _ _ h) in R.
        rewrite (sleepsOf_step _ _ _ _ _ _ _ _ R). cbn [List.length]. lia.
  - destruct (IH w1) as (w' & R & E).
    + subst w1. cbn [wallclock] in *. lia.
    + exists w'. split; [exact R|].
      subst w1. rewrite (sleepsOf_step _ _ _ _ _ _ _ _ R). cbn [List.length]. lia.
Qed.

Lemma hour_sleeps_lower (h f : nat) (tgt : Time) (w w' : World) :
  (Z.of_nat h + 1) * Hour < tgt - wallclock w ->
  waitLoop stableClock f tgt w = Some w' ->
  (h <= List.length (sleepsOf w w'))%nat.
Proof.
  revert f w. induction h as [|h IH]; intros f w B R; [lia|].
  destruct f as [|f]; [discriminate|].
  rewrite loop_sleep in R by (units; lia).
  rewrite hour_step in R by (units; lia).
  rewrite (sleepsOf_step _ _ _ _ _ _ _ _ R). cbn [List.length].
  apply le_n_S. apply (IH f _); [|exact R].
  cbn [wallclock]. lia.
Qed.

(** What a pass does depends on the distance to the target only. *)
Lemma iteration_remaining (tgt1 now1 tgt2 now2 : Time) :
  tgt1 - now1 = tgt2 - now2 -> iteration tgt1 now1 = iteration tgt2 now2.
Proof.
  intros E. unfold iteration, After, Sub. rewrite E.
  destruct (Z.ltb_spec tgt1 now1), (Z.ltb_spec tgt2 now2); try lia; reflexivity.
Qed.

Lemma waitLoop_remaining (f : nat) (tgt1 tgt2 : Time) (w1 w2 : World) :
  tgt1 - wallclock w1 = tgt2 - wallclock w2 ->
  match waitLoop stableClock f tgt1 w1, waitLoop stableClock f tgt2 w2 with
  | Some a, Some b => sleepsOf w1 a = sleepsOf w2 b
  | None, None => True
  | _, _ => False
  end.
Proof.
  revert w1 w2. induction f as [|f IH]; intros w1 w2 E; [exact I|].
  cbn [waitLoop]. unfold timeNow.
  rewrite (iteration_remaining _ _ _ _ E).
  destruct (iteration tgt2 (wallclock w2)) as [|d].
  - now rewrite !sleepsOf_refl.
  - unfold timeSleep. cbn [wallclock reads slept].
    change (stableClock (wallclock w1) d) with (wallclock w1 + d).
    change (stableClock (wallclock w2) d) with (wallclock w2 + d).
    specialize (IH (mkWorld (wallclock w1 + d) (S (reads w1)) (slept w1 ++ [d]))
                   (mkWorld (wallclock w2 + d) (S (reads w2)) (slept w2 ++ [d]))).
    cbn [wallclock] in IH. specialize (IH ltac:(lia)).
    destruct (waitLoop stableClock f tgt1 _) as [a|] eqn:R1,
             (waitLoop stableClock f tgt2 _) as [b|] eqn:R2; try exact IH.
    cbv beta iota in IH |- *.
    rewrite (sleepsOf_step _ _ _ _ _ _ _ _ R1), (sleepsOf_step _ _ _ _ _ _ _ _ R2).
    now rewrite IH.
Qed.

(** The schedule for a target ten hours ahead: eight sleeps of an hour
    bring the remaining duration down to two hours, seven halvings to
    under a minute, and one last sleep to the target. *)
Lemma ten_hours_schedule (tgt : Time) (w w' : World) (f : nat) :
  tgt - wallclock w = 10 * Hour ->
  waitLoop stableClock f tgt w = Some w' ->
  sleepsOf w w' =
  [Hour; Hour; Hour; Hour; Hour; Hour; Hour; Hour;
   60 * Minute; 30 * Minute; 15 * Minute; 450 * Second; 225 * Second;
   112500 * Millisecond; 56250 * Millisecond; 56250 * Millisecond].
Proof.
  intros E R. apply (waitLoop_more_fuel _ _ 17) in R.
  pose proof (waitLoop_remaining (f + 17) tgt (10 * Hour) w (mkWorld 0 0 [])) as P.
  rewrite R in P. cbn [wallclock] in P. specialize (P ltac:(lia)).
  assert (Q : waitLoop stableClock 17 (10 * Hour) (mkWorld 0 0 []) =
              Some (mkWorld (10 * Hour) 17
                      [Hour; Hour; Hour; Hour; Hour; Hour; Hour; Hour;
                       60 * Minute; 30 * Minute; 15 * Minute; 450 * Second;
                       225 * Second; 112500 * Millisecond; 56250 * Millisecond;
                       56250 * Millisecond])) by (vm_compute; reflexivity).
  apply (waitLoop_more_fuel _ _ f) in Q. rewrite Nat.add_comm in Q.
  rewrite Q in P. rewrite P. reflexivity.
Qed.

(** C3, as the code has it.  Under a stable clock the wait loop returns
    for every target and every start.  With [T] the distance to the
    target, it sleeps at most [k + 1] times when [T] is at most two hours
    and at most [2^k] minutes; beyond two hours every sleep is capped at one
    hour, so the number of sleeps is linear in [T]: between [T / 1h - 2] and
    [T / 1h + 8].  For a target ten hours ahead it sleeps 16 times. *)
Theorem C3_stable_clock_terminates (tgt : Time) (w : World) :
  exists (fuel : nat) (w' : World),
    waitLoop stableClock fuel tgt w = Some w' /\
    let n := Z.of_nat (List.length (sleepsOf w w')) in
    let T := tgt - wallclock w in
    n <= Z.max 0 (T / Hour) + 8 /\
    (forall k : nat, T <= 2 * Hour -> T <= 2 ^ Z.of_nat k * Minute ->
                     n <= Z.of_nat k + 1) /\
    (2 * Hour < T -> T / Hour - 2 <= n) /\
    (T = 10 * Hour -> n = 16).
Proof.
  assert (HP : 0 < Hour) by (units; lia).
  assert (X : exists (fuel : nat) (w' : World),
             waitLoop stableClock fuel tgt w = Some w' /\
             Z.of_nat (List.length (sleepsOf w w'))
             <= Z.max 0 ((tgt - wallclock w) / Hour) + 8).
  { destruct (Z.le_gt_cases (tgt - wallclock w) (2 * Hour)) as [T|T].
    - destruct (halving_phase 7 tgt w) as (w' & R & E); [|exact T|].
      + change (2 ^ Z.of_nat 7) with 128. units; lia.
      + exists (2 + 7)%nat, w'. split; [exact R|]. lia.
    - pose proof (Z.div_mod (tgt - wallclock w) Hour ltac:(lia)) as D.
      pose proof (Z.mod_pos_bound (tgt - wallclock w) Hour HP) as M.
      set (q := (tgt - wallclock w) / Hour) in *.
      assert (Q : 2 <= q) by nia.
      destruct (hour_phase (Z.to_nat (q - 1)) tgt w) as (w' & R & E).
      + rewrite Z2Nat.id by lia. nia.
      + exists (9 + Z.to_nat (q - 1))%nat, w'. split; [exact R|]. lia. }
  destruct X as (fuel & w' & R & U). exists fuel, w'.
  split; [exact R|]. cbv zeta. split; [exact U|]. split; [|split].
  - intros k T B. destruct (halving_phase k tgt w B T) as (w'' & R' & E).
    rewrite (waitLoop_deterministic _ _ _ _ _ _ _ R R'). lia.
  - intros T.
    pose proof (Z.div_mod (tgt - wallclock w) Hour ltac:(lia)) as D.
    pose proof (Z.mod_pos_bound (tgt - wallclock w) Hour HP) as M.
    set (q := (tgt - wallclock w) / Hour) in *.
    assert (Q : 2 <= q) by nia.
    pose proof (hour_sleeps_lower (Z.to_nat (q - 2)) fuel tgt w w') as L.
    rewrite Z2Nat.id in L by lia. specialize (L ltac:(nia) R). lia.
  - intros E. rewrite (ten_hours_schedule _ _ _ _ E R). reflexivity.
Qed.

Lemma four_pow_ge_square (m : Z) : 0 <= m -> m * m < 4 ^ m.
Proof.
  revert m. apply natlike_ind; [reflexivity|].
  intros m P IH. rewrite Z.pow_succ_r by exact P. nia.
Qed.

(** A target [p] hours ahead takes at least [p - 2] sleeps. *)
Lemma far_target_sleeps (p : Z) :
  3 <= p ->
  exists (fuel : nat) (w' : World),
    waitLoop stableClock fuel (p * Hour) (mkWorld 0 0 []) = Some w' /\
    p - 2 <= Z.of_nat (List.length (sleepsOf (mkWorld 0 0 []) w')).
Proof.
  intros P.
  assert (HP : 0 < Hour) by (units; lia).
  destruct (hour_phase (Z.to_nat p) (p * Hour) (mkWorld 0 0 [])) as (w' & R & _).
  { cbn [wallclock]. rewrite Z2Nat.id by lia. nia. }
  exists (9 + Z.to_nat p)%nat, w'. split; [exact R|].
  pose proof (hour_sleeps_lower (Z.to_nat (p - 2)) (9 + Z.to_nat p)
                (p * Hour) (mkWorld 0 0 []) w') as L.
  rewrite Z2Nat.id in L by lia. cbn [wallclock] in L.
  assert (B : (p - 2 + 1) * Hour < p * Hour - 0) by nia.
  specialize (L B R). lia.
Qed.

Lemma log2_hours_in_minutes (k : Z) :
  0 <= k -> 2 ^ k * Hour / Minute = 2 ^ k * 60 /\
            0 <= Z.log2 (2 ^ k * 60) < k + 6.
Proof.
  intros K. assert (P : 0 < 2 ^ k) by (apply Z.pow_pos_nonneg; lia).
  split.
  - replace (2 ^ k * Hour) with (2 ^ k * 60 * Minute)
      by (unfold Hour; ring).
    apply Z.div_mul. units; lia.
  - split; [apply Z.log2_nonneg|].
    apply Z.log2_lt_pow2; [lia|].
    rewrite Z.pow_add_r by lia. change (2 ^ 6) with 64. lia.
Qed.

(** C3, as the spec states it, fails: no bound [a * log2 (T / 1 minute) + b]
    holds for all distances [T], since a target [2^k] hours ahead takes
    at least [2^k - 2] sleeps. *)
Lemma C3_no_logarithmic_bound : ~ exists a b : Z, logarithmicSleeps a b.
Proof.
  intros (a & b & H).
  remember (Z.abs a + Z.abs b + 1) as m eqn:Em.
  assert (M : 1 <= m) by lia.
  assert (P : 16 * (m * m) < 2 ^ (2 * m + 4)).
  { rewrite Z.pow_add_r, Z.pow_mul_r by lia.
    change (2 ^ 2) with 4. change (2 ^ 4) with 16.
    pose proof (four_pow_ge_square m ltac:(lia)). lia. }
  assert (E : m * 1 <= m * m) by (apply Z.mul_le_mono_nonneg_l; lia).
  assert (P2 : 3 <= 2 ^ (2 * m + 4)) by lia.
  destruct (far_target_sleeps _ P2) as (fuel & w' & R & L).
  destruct (log2_hours_in_minutes (2 * m + 4) ltac:(lia)) as (D & G).
  assert (F : Minute <= 2 ^ (2 * m + 4) * Hour - wallclock (mkWorld 0 0 [])).
  { cbn [wallclock]. units. lia. }
  specialize (H _ _ _ _ F R). cbn [wallclock] in H.
  rewrite Z.sub_0_r, D in H.
  revert L H G P. generalize (Z.of_nat (List.length (sleepsOf (mkWorld 0 0 []) w'))).
  generalize (Z.log2 (2 ^ (2 * m + 4) * 60)). generalize (2 ^ (2 * m + 4)).
  intros p lg n L H G P.
  assert (A : a * lg <= Z.abs a * (2 * m + 4 + 6)).
  { transitivity (Z.abs a * lg).
    - apply Z.mul_le_mono_nonneg_r; lia.
    - apply Z.mul_le_mono_nonneg_l; lia. }
  assert (B : (Z.abs b + 1) * 1 <= (Z.abs b + 1) * (2 * m + 4 + 6))
    by (apply Z.mul_le_mono_nonneg_l; lia).
  assert (C : m * (2 * m + 4 + 6) = 2 * (m * m) + 10 * m) by ring.
  assert (C' : m * (2 * m + 4 + 6)
               = Z.abs a * (2 * m + 4 + 6) + (Z.abs b + 1) * (2 * m + 4 + 6))
    by (rewrite Em; ring).
  lia.
Qed.

(* ================================================================== *)
(** * Properties of the calendar *)

(** ** The calendar *)

Lemma norm_floor (hi lo base : Z) :
  0 < base -> norm hi lo base = (hi + lo / base, lo mod base).
Proof.
  intros B. unfold norm.
  pose proof (Z.div_mod lo base ltac:(lia)) as D.
  pose proof (Z.mod_pos_bound lo base B) as M.
  destruct (Z.ltb_spec lo 0) as [N|N].
  - rewrite Z.quot_div_nonneg by lia.
    set (n := (- lo - 1) / base + 1).
    assert (Q : lo / base = - n).
    { symmetry. apply (Z.div_unique lo base (- n) (lo + n * base)); [|lia].
      left. unfold n.
      pose proof (Z.div_mod (- lo - 1) base ltac:(lia)).
      pose proof (Z.mod_pos_bound (- lo - 1) base B). nia. }
    assert (R : lo mod base = lo + n * base) by nia.
    destruct (Z.geb_spec (lo + n * base) base) as [G|G]; [lia|].
    f_equal; lia.
  - destruct (Z.geb_spec lo base) as [G|G].
    + rewrite Z.quot_div_nonneg by lia. f_equal; nia.
    + rewrite Z.div_small, Z.mod_small by lia. f_equal; lia.
Qed.

Lemma isLeap_mod (y : Z) :
  isLeap y = (y mod 4 =? 0) && (negb (y mod 100 =? 0) || (y mod 400 =? 0)).
Proof.
  unfold isLeap.
  assert (E : forall b, b <> 0 -> (Z.rem y b =? 0) = (y mod b =? 0)).
  { intros b B. apply eq_true_iff_eq. rewrite !Z.eqb_eq.
    rewrite Z.rem_divide, Z.mod_divide by exact B. reflexivity. }
  rewrite !E by lia. reflexivity.
Qed.

Lemma year_parts (y : Z) : exists a b c e, yearParts y a b c e.
Proof.
  exists ((y - 1) / 400), ((y - 1) mod 400 / 100),
         ((y - 1) mod 400 mod 100 / 4), ((y - 1) mod 400 mod 100 mod 4).
  split; Z.div_mod_to_equations; lia.
Qed.

Lemma isLeap_parts (y a b c e : Z) :
  yearParts y a b c e ->
  isLeap y = (e =? 3) && (negb (c =? 24) || (b =? 3)).
Proof.
  intros [Y B C E]. rewrite isLeap_mod. subst y.
  apply eq_true_iff_eq.
  rewrite !andb_true_iff, !orb_true_iff, !negb_true_iff, !Z.eqb_eq, !Z.eqb_neq.
  Z.div_mod_to_equations. lia.
Qed.

Lemma daysSinceEpoch_parts (y a b c e : Z) :
  yearParts y a b c e ->
  daysSinceEpoch y = 146097 * a + 36524 * b + 1461 * c + 365 * e.
Proof.
  intros [Y B C E]. unfold daysSinceEpoch.
  cbv [daysPer400Years daysPer100Years daysPer4Years]. subst y.
  Z.div_mod_to_equations. lia.
Qed.

Lemma yearDay_parts (a b c e yd : Z) :
  0 <= b <= 3 -> 0 <= c <= 24 -> 0 <= e <= 3 ->
  0 <= yd < 365 + leapDay ((e =? 3) && (negb (c =? 24) || (b =? 3))) ->
  yearDay (146097 * a + 36524 * b + 1461 * c + 365 * e + yd)
  = (400 * a + 100 * b + 4 * c + e + 1, yd).
Proof.
  intros B C E Y.
  assert (L : 0 <= yd /\ (yd <= 364 \/ (yd = 365 /\ e = 3 /\ (c <> 24 \/ b = 3)))).
  { destruct (Z.eqb_spec e 3), (Z.eqb_spec c 24), (Z.eqb_spec b 3);
      cbn in Y; lia. }
  clear Y. unfold yearDay.
  cbv [daysPer400Years daysPer100Years daysPer4Years].
  assert (D1 : (146097 * a + 36524 * b + 1461 * c + 365 * e + yd) / (365 * 400 + 97) = a).
  { symmetry. apply (Z.div_unique _ _ a (36524 * b + 1461 * c + 365 * e + yd)); lia. }
  cbv zeta. rewrite D1.
  replace (146097 * a + 36524 * b + 1461 * c + 365 * e + yd - (365 * 400 + 97) * a)
    with (36524 * b + 1461 * c + 365 * e + yd) by lia.
  set (r1 := 36524 * b + 1461 * c + 365 * e + yd).
  assert (D2 : r1 / (365 * 100 + 24) - r1 / (365 * 100 + 24) / 4 = b).
  { unfold r1. Z.div_mod_to_equations. lia. }
  rewrite D2.
  replace (r1 - (365 * 100 + 24) * b) with (1461 * c + 365 * e + yd) by (unfold r1; lia).
  set (r2 := 1461 * c + 365 * e + yd).
  assert (D3 : r2 / (365 * 4 + 1) = c).
  { symmetry. apply (Z.div_unique _ _ c (365 * e + yd)); unfold r2; lia. }
  rewrite D3.
  replace (r2 - (365 * 4 + 1) * c) with (365 * e + yd) by (unfold r2; lia).
  assert (D4 : (365 * e + yd) / 365 - (365 * e + yd) / 365 / 4 = e).
  { Z.div_mod_to_equations. lia. }
  rewrite D4. f_equal; lia.
Qed.

(** Round trip: the year and the day of the year of a day count built
    from them. *)
Lemma yearDay_of (y yd : Z) :
  0 <= yd < 365 + leapDay (isLeap y) ->
  yearDay (daysSinceEpoch y + yd) = (y, yd).
Proof.
  intros Y. destruct (year_parts y) as (a & b & c & e & P).
  rewrite (daysSinceEpoch_parts _ _ _ _ _ P).
  rewrite (isLeap_parts _ _ _ _ _ P) in Y.
  destruct P as [Py Pb Pc Pe].
  rewrite yearDay_parts by assumption. now rewrite Py.
Qed.

(** Every day count is a day of a year. *)
Lemma yearDay_inv (days : Z) :
  let '(y, yd) := yearDay days in
  days = daysSinceEpoch y + yd /\ 0 <= yd < 365 + leapDay (isLeap y).
Proof.
  set (a := days / 146097). set (d1 := days mod 146097).
  set (n1 := d1 / 36524). set (b := n1 - n1 / 4).
  set (d2 := d1 - 36524 * b). set (c := d2 / 1461).
  set (d3 := d2 - 1461 * c). set (n4 := d3 / 365).
  set (e := n4 - n4 / 4). set (yd := d3 - 365 * e).
  assert (E : yearDay days = (400 * a + 100 * b + 4 * c + e + 1, yd)).
  { unfold yearDay. cbv [daysPer400Years daysPer100Years daysPer4Years]. cbv zeta.
    change (365 * 400 + 97) with 146097. change (365 * 100 + 24) with 36524.
    change (365 * 4 + 1) with 1461.
    fold a. replace (days - 146097 * a) with d1
      by (unfold d1, a; Z.div_mod_to_equations; lia).
    fold n1. fold b. fold d2. fold c. fold d3. fold n4. fold e. fold yd.
    reflexivity. }
  rewrite E.
  assert (F : 0 <= d1 < 146097) by (unfold d1; Z.div_mod_to_equations; lia).
  assert (Fb : 0 <= b <= 3 /\ 0 <= d2 <= 36524 /\ (d2 = 36524 -> b = 3)).
  { unfold d2, b, n1. Z.div_mod_to_equations. lia. }
  assert (Fc : 0 <= c <= 24 /\ 0 <= d3 <= 1460 /\ (d3 = 1460 -> c = 24 -> b = 3)).
  { unfold d3, c. Z.div_mod_to_equations. lia. }
  assert (Fe : 0 <= e <= 3 /\ 0 <= yd <= 365 /\ (yd = 365 -> e = 3 /\ d3 = 1460)).
  { unfold yd, e, n4. Z.div_mod_to_equations. lia. }
  assert (P : yearParts (400 * a + 100 * b + 4 * c + e + 1) a b c e)
    by (split; lia).
  rewrite (daysSinceEpoch_parts _ _ _ _ _ P), (isLeap_parts _ _ _ _ _ P).
  split.
  - unfold yd, d3, d2. unfold d1, a. Z.div_mod_to_equations. lia.
  - destruct (Z.eqb_spec e 3), (Z.eqb_spec c 24), (Z.eqb_spec b 3); cbn; lia.
Qed.

Lemma in_zrange (lo n : nat) (z : Z) :
  Z.of_nat lo <= z < Z.of_nat lo + Z.of_nat n -> In z (zrange lo n).
Proof.
  intros H. unfold zrange. apply in_map_iff. exists (Z.to_nat z).
  split; [lia|]. apply in_seq. lia.
Qed.

Lemma pairEqb_eq (p q : Z * Z) : pairEqb p q = true -> p = q.
Proof.
  destruct p, q. unfold pairEqb. cbn.
  rewrite andb_true_iff, !Z.eqb_eq. intros [-> ->]. reflexivity.
Qed.

Lemma daysIn_leap (m y : Z) : daysIn m y = daysInLeap (isLeap y) m.
Proof. reflexivity. Qed.

Lemma daysInLeap_bounds (leap : bool) (m : Z) :
  1 <= m <= 12 -> 28 <= daysInLeap leap m <= 31.
Proof.
  intros M.
  assert (E : m = 1 \/ m = 2 \/ m = 3 \/ m = 4 \/ m = 5 \/ m = 6 \/ m = 7 \/
              m = 8 \/ m = 9 \/ m = 10 \/ m = 11 \/ m = 12) by lia.
  destruct leap;
    repeat (destruct E as [->|E]; [vm_compute; split; discriminate|]);
    subst m; vm_compute; split; discriminate.
Qed.

(** A property of dates checked on the table of all months and days. *)
Lemma on_all_dates (P : bool -> Z -> Z -> bool) :
  forallb (fun leap =>
    forallb (fun m =>
      forallb (fun d => negb (d <=? daysInLeap leap m) || P leap m d)
        (zrange 1 31)) (zrange 1 12)) [true; false] = true ->
  forall (leap : bool) (m d : Z),
    1 <= m <= 12 -> 1 <= d <= daysInLeap leap m -> P leap m d = true.
Proof.
  intros T leap m d M D.
  pose proof (daysInLeap_bounds leap m M) as D31.
  rewrite forallb_forall in T.
  assert (L : In leap [true; false]) by (destruct leap; cbn; auto).
  specialize (T leap L). rewrite forallb_forall in T.
  specialize (T m (in_zrange 1 12 m ltac:(lia))). rewrite forallb_forall in T.
  specialize (T d (in_zrange 1 31 d ltac:(lia))).
  apply orb_true_iff in T as [T|T]; [|exact T].
  apply negb_true_iff, Z.leb_gt in T. lia.
Qed.

(** Round trip: month and day of the day of the year of a date. *)
Lemma monthDay_of (leap : bool) (m d : Z) :
  1 <= m <= 12 -> 1 <= d <= daysInLeap leap m ->
  monthDay leap (ydayOf leap m d) = (m, d).
Proof.
  intros M D. apply pairEqb_eq.
  apply (on_all_dates (fun leap m d => pairEqb (monthDay leap (ydayOf leap m d)) (m, d)));
    [vm_compute; reflexivity | exact M | exact D].
Qed.

Lemma ydayOf_bounds (leap : bool) (m d : Z) :
  1 <= m <= 12 -> 1 <= d <= daysInLeap leap m ->
  0 <= ydayOf leap m d < 365 + leapDay leap.
Proof.
  intros M D.
  pose proof (on_all_dates
    (fun leap m d => (0 <=? ydayOf leap m d) && (ydayOf leap m d <? 365 + leapDay leap))
    ltac:(vm_compute; reflexivity) leap m d M D) as T.
  cbv beta in T. apply andb_true_iff in T as [T1 T2].
  apply Z.leb_le in T1. apply Z.ltb_lt in T2. lia.
Qed.

Lemma monthDay_inv_table :
  forallb (fun leap =>
    forallb (fun yd =>
      negb (yd <? 365 + leapDay leap)
      || (let '(m, d) := monthDay leap yd in
          (1 <=? m) && (m <=? 12) && (1 <=? d) && (d <=? daysInLeap leap m)
          && (ydayOf leap m d =? yd)))
      (zrange 0 366)) [true; false] = true.
Proof. vm_compute. reflexivity. Qed.

(** Every day of the year is a date. *)
Lemma monthDay_inv (leap : bool) (yd : Z) :
  0 <= yd < 365 + leapDay leap ->
  let '(m, d) := monthDay leap yd in
  1 <= m <= 12 /\ 1 <= d <= daysInLeap leap m /\ ydayOf leap m d = yd.
Proof.
  intros Y. pose proof monthDay_inv_table as T.
  rewrite forallb_forall in T.
  assert (L : In leap [true; false]) by (destruct leap; cbn; auto).
  specialize (T leap L). rewrite forallb_forall in T.
  assert (B : yd < 366) by (destruct leap; cbn in Y; lia).
  specialize (T yd (in_zrange 0 366 yd ltac:(lia))).
  apply orb_true_iff in T as [T|T].
  - apply negb_true_iff, Z.ltb_ge in T. lia.
  - destruct (monthDay leap yd) as [m d].
    rewrite !andb_true_iff, !Z.leb_le, Z.eqb_eq in T. lia.
Qed.

(** ** [Date] and the field accessors *)

(** [Date] is linear in the day and in the time of the day: fields out
    of range carry into the next larger unit without loss. *)
Lemma Date_linear (y m d h mi s ns : Z) :
  Date y m d h mi s ns
  = (monthStart y m + (d - 1)) * nsPerDay
    + (h * secondsPerHour + mi * secondsPerMinute + s) * Second + ns.
Proof.
  unfold Date, monthStart, nsPerDay.
  rewrite (norm_floor y (m - 1) 12) by lia.
  rewrite (norm_floor s ns 1000000000) by lia.
  rewrite (norm_floor mi _ 60) by lia.
  rewrite (norm_floor h _ 60) by lia.
  rewrite (norm_floor d _ 24) by lia.
  replace ((m - 1) mod 12 + 1 - 1) with ((m - 1) mod 12) by lia.
  set (y' := y + (m - 1) / 12). set (m' := (m - 1) mod 12).
  generalize (daysSinceEpoch y' + daysBeforeAt m') as d0. intros d0.
  assert (E : (if isLeap y' && (m' + 1 >=? 3) then d0 + 1 else d0)
              = d0 + leapDay (isLeap y' && (m' + 1 >=? 3))).
  { destruct (isLeap y' && (m' + 1 >=? 3)); cbn [leapDay]; lia. }
  rewrite E. generalize (leapDay (isLeap y' && (m' + 1 >=? 3))) as l. intros l.
  cbv [secondsPerDay secondsPerHour secondsPerMinute Second Millisecond
       Microsecond Nanosecond].
  Z.div_mod_to_equations. lia.
Qed.

Lemma monthStart_valid (y m : Z) :
  1 <= m <= 12 ->
  monthStart y m = daysSinceEpoch y + daysBeforeAt (m - 1)
                   + leapDay (isLeap y && (m >=? 3)).
Proof.
  intros M. unfold monthStart. rewrite norm_floor by lia.
  rewrite Z.div_small, Z.mod_small by lia.
  replace (y + 0) with y by lia. replace (m - 1 + 1) with m by lia. reflexivity.
Qed.

Lemma clock_bounds (h mi s ns : Z) :
  validClock h mi s ns ->
  0 <= (h * secondsPerHour + mi * secondsPerMinute + s) * Second + ns < nsPerDay.
Proof.
  unfold validClock, nsPerDay.
  cbv [secondsPerDay secondsPerHour secondsPerMinute Second Millisecond
       Microsecond Nanosecond]. lia.
Qed.

(** Round trip: the fields of the time built from a date and a time of
    the day. *)
Lemma fields_of_Date (y m d h mi s ns : Z) :
  validDate y m d -> validClock h mi s ns ->
  let t := Date y m d h mi s ns in
  yearOf t = y /\ monthOf t = m /\ dayOf t = d /\
  hourOf t = h /\ minuteOf t = mi /\ secondOf t = s /\ nsecOf t = ns.
Proof.
  intros [M D] C t.
  pose proof (clock_bounds _ _ _ _ C) as B.
  assert (T : t = (daysSinceEpoch y + ydayOf (isLeap y) m d) * nsPerDay
                  + ((h * secondsPerHour + mi * secondsPerMinute + s) * Second + ns)).
  { unfold t. rewrite Date_linear, monthStart_valid by exact M.
    unfold ydayOf. lia. }
  assert (N : 0 < nsPerDay) by reflexivity.
  assert (DO : daysOf t = daysSinceEpoch y + ydayOf (isLeap y) m d).
  { unfold daysOf. fold nsPerDay. rewrite T. symmetry.
    apply (Z.div_unique _ _ _ ((h * secondsPerHour + mi * secondsPerMinute + s) * Second + ns));
      lia. }
  assert (YD : 0 <= ydayOf (isLeap y) m d < 365 + leapDay (isLeap y)).
  { rewrite daysIn_leap in D. now apply ydayOf_bounds. }
  assert (AD : absDate (daysOf t) = (y, m, d, ydayOf (isLeap y) m d)).
  { unfold absDate. rewrite DO, yearDay_of by exact YD.
    rewrite daysIn_leap in D. now rewrite monthDay_of. }
  unfold yearOf, monthOf, dayOf. rewrite AD.
  repeat split; try reflexivity.
  - unfold hourOf. rewrite T. destruct C as (C1 & C2 & C3 & C4).
    cbv [nsPerDay secondsPerDay secondsPerHour secondsPerMinute Second Millisecond
         Microsecond Nanosecond] in *.
    Z.div_mod_to_equations. lia.
  - unfold minuteOf. rewrite T. destruct C as (C1 & C2 & C3 & C4).
    cbv [nsPerDay secondsPerDay secondsPerHour secondsPerMinute Second Millisecond
         Microsecond Nanosecond] in *.
    Z.div_mod_to_equations. lia.
  - unfold secondOf. rewrite T. destruct C as (C1 & C2 & C3 & C4).
    cbv [nsPerDay secondsPerDay secondsPerHour secondsPerMinute Second Millisecond
         Microsecond Nanosecond] in *.
    Z.div_mod_to_equations. lia.
  - unfold nsecOf. rewrite T. destruct C as (C1 & C2 & C3 & C4).
    cbv [nsPerDay secondsPerDay secondsPerHour secondsPerMinute Second Millisecond
         Microsecond Nanosecond] in *.
    Z.div_mod_to_equations. lia.
Qed.

(** [AddDate] on a time given by its fields. *)
Lemma AddDate_Date (y m d h mi s ns years months days : Z) :
  validDate y m d -> validClock h mi s ns ->
  AddDate (Date y m d h mi s ns) years months days
  = Date (y + years) (m + months) (d + days) h mi s ns.
Proof.
  intros V C. unfold AddDate.
  destruct (fields_of_Date _ _ _ _ _ _ _ V C) as (-> & -> & -> & -> & -> & -> & ->).
  reflexivity.
Qed.

Lemma daysSinceEpoch_succ (y : Z) :
  daysSinceEpoch (y + 1) = daysSinceEpoch y + 365 + leapDay (isLeap y).
Proof.
  rewrite isLeap_mod. unfold daysSinceEpoch, leapDay.
  cbv [daysPer400Years daysPer100Years daysPer4Years]. cbv zeta.
  replace (y + 1 - 1) with y by lia.
  destruct (Z.eqb_spec (y mod 4) 0), (Z.eqb_spec (y mod 100) 0),
           (Z.eqb_spec (y mod 400) 0); cbn [andb orb negb];
    Z.div_mod_to_equations; lia.
Qed.

(** The first day of the next month comes [daysIn] days after the first
    day of a month. *)
Lemma monthStart_succ (y m : Z) :
  1 <= m <= 12 -> monthStart y (m + 1) = monthStart y m + daysIn m y.
Proof.
  intros M. rewrite daysIn_leap, (monthStart_valid y m M).
  pose proof (daysInLeap_bounds (isLeap y) m M) as B.
  pose proof (on_all_dates
    (fun leap m _ =>
       ydayOf leap m 1 + daysInLeap leap m
       =? (if m =? 12 then 365 + leapDay leap else ydayOf leap (m + 1) 1))
    ltac:(vm_compute; reflexivity) (isLeap y) m 1 M ltac:(lia)) as T.
  cbv beta in T. apply Z.eqb_eq in T. unfold ydayOf in T.
  destruct (Z.eqb_spec m 12) as [->|N].
  - unfold monthStart. rewrite norm_floor by lia.
    change ((12 + 1 - 1) / 12) with 1. change ((12 + 1 - 1) mod 12) with 0.
    rewrite daysSinceEpoch_succ.
    change (0 + 1 >=? 3) with false. rewrite andb_false_r.
    change (daysBeforeAt 0) with 0. change (leapDay false) with 0. lia.
  - rewrite (monthStart_valid y (m + 1)) by lia.
    replace (m + 1 - 1) with m in * by lia. lia.
Qed.

(** A day past the end of its month is a day of the next month. *)
Lemma Date_day_overflow (y m k h mi s ns : Z) :
  1 <= m <= 12 ->
  Date y m (daysIn m y + k) h mi s ns = Date y (m + 1) k h mi s ns.
Proof.
  intros M. rewrite !Date_linear, monthStart_succ by exact M. lia.
Qed.

(** Every time has the fields of a date and of a time of the day, and is
    the [Date] of its fields. *)
Lemma Date_of_fields (t : Time) :
  validDate (yearOf t) (monthOf t) (dayOf t) /\
  validClock (hourOf t) (minuteOf t) (secondOf t) (nsecOf t) /\
  t = Date (yearOf t) (monthOf t) (dayOf t)
           (hourOf t) (minuteOf t) (secondOf t) (nsecOf t).
Proof.
  pose proof (yearDay_inv (daysOf t)) as Y.
  unfold yearOf, monthOf, dayOf, absDate.
  destruct (yearDay (daysOf t)) as [y yd]. destruct Y as [Y1 Y2].
  pose proof (monthDay_inv (isLeap y) yd Y2) as MD.
  destruct (monthDay (isLeap y) yd) as [m d]. destruct MD as (M & D & E).
  assert (V : validDate y m d) by (split; [exact M | now rewrite daysIn_leap]).
  assert (C : validClock (hourOf t) (minuteOf t) (secondOf t) (nsecOf t)).
  { unfold validClock, hourOf, minuteOf, secondOf, nsecOf.
    cbv [secondsPerDay secondsPerHour secondsPerMinute Second Millisecond
         Microsecond Nanosecond].
    repeat split; Z.div_mod_to_equations; lia. }
  split; [exact V|]. split; [exact C|].
  rewrite Date_linear, monthStart_valid by exact M.
  fold (ydayOf (isLeap y) m d) in *.
  replace (daysSinceEpoch y + daysBeforeAt (m - 1) + leapDay (isLeap y && (m >=? 3)) + (d - 1))
    with (daysOf t) by (rewrite Y1, <- E; unfold ydayOf; lia).
  unfold daysOf, hourOf, minuteOf, secondOf, nsecOf, nsPerDay.
  cbv [secondsPerDay secondsPerHour secondsPerMinute Second Millisecond
       Microsecond Nanosecond].
  Z.div_mod_to_equations. lia.
Qed.

(* ================================================================== *)
(** * Properties of the parser *)

(* ------------------------------------------------------------------ *)
(** * The simple form [HH:MM[:SS]] *)

Lemma parseHHMM_Err (tspec : string) (w : World) (e : string) :
  scanHHMM tspec = Err e -> parseHHMM tspec w = (Err e, w).
Proof. unfold parseHHMM. intros ->. reflexivity. Qed.

Lemma parseHHMM_isOk (tspec : string) (w : World) :
  isOk (fst (parseHHMM tspec w)) = isOk (scanHHMM tspec).
Proof.
  unfold parseHHMM. destruct (scanHHMM tspec) as [[[hr mi] secs]|e]; [|reflexivity].
  cbn. destruct (_ && _); reflexivity.
Qed.

Lemma parseHHMM_Ok (tspec : string) (w : World) (hr min secs : Z) :
  scanHHMM tspec = Ok (hr, min, secs) ->
  forall now tgt : Time,
    now = wallclock w ->
    tgt = Date (yearOf now) (monthOf now) (dayOf now) hr min secs 0 ->
    parseHHMM tspec w
    = (Ok (if (hourOf now =? hr) && (minuteOf now =? min) && (secondOf now >=? secs)
           then tgt
           else if Before tgt now then Add tgt (Hour * 24) else tgt),
       snd (timeNow w)).
Proof.
  intros Sc now tgt -> ->. unfold parseHHMM. rewrite Sc. unfold timeNow.
  cbv beta iota zeta. cbn [snd].
  destruct (_ && _); reflexivity.
Qed.

Lemma parseTime_simple (tspec : string) (w : World) (t : Time) (w1 : World) :
  parseHHMM tspec w = (Ok t, w1) -> parseTime tspec w = (Ok t, w1).
Proof. unfold parseTime. intros ->. reflexivity. Qed.

Lemma parseTime_Err (tspec : string) (w : World) (e : string) :
  scanHHMM tspec = Err e ->
  parseTime tspec w = (rangeSpecs (wallclock w) specs tspec, snd (timeNow w)).
Proof.
  intros E. unfold parseTime. rewrite (parseHHMM_Err _ _ _ E). reflexivity.
Qed.

(** The time of the day of a reading, in seconds, is what its fields say. *)
Lemma today_le (now : Time) (secs : Z) :
  secs <= secondOf now ->
  Date (yearOf now) (monthOf now) (dayOf now) (hourOf now) (minuteOf now) secs 0
  <= now.
Proof.
  intros S. destruct (Date_of_fields now) as (_ & C & E).
  pose proof (Date_linear (yearOf now) (monthOf now) (dayOf now) (hourOf now)
                (minuteOf now) (secondOf now) (nsecOf now)) as L.
  rewrite <- E in L. rewrite Date_linear.
  destruct C as (_ & _ & _ & N). unfold Second, Millisecond, Microsecond, Nanosecond in *.
  lia.
Qed.

Lemma today_lt (now : Time) (secs : Z) :
  secs < secondOf now ->
  Date (yearOf now) (monthOf now) (dayOf now) (hourOf now) (minuteOf now) secs 0
  < now.
Proof.
  intros S. destruct (Date_of_fields now) as (_ & C & E).
  pose proof (Date_linear (yearOf now) (monthOf now) (dayOf now) (hourOf now)
                (minuteOf now) (secondOf now) (nsecOf now)) as L.
  rewrite <- E in L. rewrite Date_linear.
  destruct C as (_ & _ & _ & N). unfold Second, Millisecond, Microsecond, Nanosecond in *.
  lia.
Qed.

(* ------------------------------------------------------------------ *)
(** * The collection of layouts *)

Lemma rangeSpecs_first (now : Time) (l1 : list tSpec) (sp : tSpec) (l2 : list tSpec)
      (tspec : string) (t : Time) :
  Forall (fails tspec) l1 ->
  ParseInLocation (spec sp) tspec = Ok t ->
  rangeSpecs now (l1 ++ sp :: l2) tspec = Ok (complete now (lacks sp) t).
Proof.
  intros F P. induction F as [|q l1 Q F IH]; cbn.
  - rewrite P. reflexivity.
  - unfold fails in Q. destruct (ParseInLocation (spec q) tspec); [discriminate|exact IH].
Qed.

Lemma rangeSpecs_Ok_inv (now : Time) (l : list tSpec) (tspec : string) (r : Time) :
  rangeSpecs now l tspec = Ok r ->
  exists l1 sp l2 t,
    l = l1 ++ sp :: l2 /\ Forall (fails tspec) l1 /\
    ParseInLocation (spec sp) tspec = Ok t /\ r = complete now (lacks sp) t.
Proof.
  induction l as [|q l IH]; cbn; [discriminate|].
  destruct (ParseInLocation (spec q) tspec) as [t|e] eqn:P.
  - intros [= <-]. exists [], q, l, t. repeat split; auto.
  - intros R. destruct (IH R) as (l1 & sp & l2 & t & -> & F & P' & ->).
    exists (q :: l1), sp, l2, t. repeat split; auto.
    constructor; [unfold fails; now rewrite P | exact F].
Qed.

Lemma rangeSpecs_fails (now : Time) (l : list tSpec) (tspec : string) :
  isOk (rangeSpecs now l tspec) = false <-> Forall (fails tspec) l.
Proof.
  induction l as [|q l IH]; cbn.
  - split; auto.
  - destruct (ParseInLocation (spec q) tspec) as [t|e] eqn:P.
    + cbn. split; [discriminate|]. intros F. inversion F as [|? ? Q _].
      unfold fails in Q. rewrite P in Q. discriminate.
    + rewrite IH. split.
      * intros F. constructor; [unfold fails; now rewrite P | exact F].
      * intros F. now inversion F.
Qed.

Lemma rangeSpecs_msg (now : Time) (l : list tSpec) (tspec e : string) :
  rangeSpecs now l tspec = Err e -> e = "cannot parse time argument"%string.
Proof.
  induction l as [|q l IH]; cbn.
  - intros [= <-]. reflexivity.
  - destruct (ParseInLocation (spec q) tspec); [discriminate|exact IH].
Qed.

(* ------------------------------------------------------------------ *)
(** * What a layout leaves in the fields *)

Lemma isDigit_val (c : ascii) : isDigit c = true -> 0 <= digitVal c <= 9.
Proof. unfold isDigit, digitVal. rewrite andb_true_iff, !Z.leb_le. lia. Qed.

Lemma getnum_range (s : string) (fixed : bool) (n : Z) (r : string) :
  getnum s fixed = Ok (n, r) -> 0 <= n <= 99.
Proof.
  unfold getnum. destruct s as [|a r0]; [discriminate|].
  destruct (isDigit a) eqn:A; [|discriminate]. apply isDigit_val in A.
  destruct r0 as [|b r1].
  - destruct fixed; [discriminate|]. intros [= <- <-]. lia.
  - destruct (isDigit b) eqn:B.
    + apply isDigit_val in B. intros [= <- <-]. lia.
    + destruct fixed; [discriminate|]. intros [= <- <-]. lia.
Qed.

Lemma decimalFrom_bounds (s : string) :
  allDigits s = true ->
  forall acc, 0 <= acc ->
    acc * 10 ^ Z.of_nat (String.length s) <= decimalFrom acc s
    < (acc + 1) * 10 ^ Z.of_nat (String.length s).
Proof.
  induction s as [|c s IH]; cbn [allDigits decimalFrom String.length]; intros D acc A.
  - change (10 ^ Z.of_nat 0) with 1. lia.
  - apply andb_true_iff in D as [C D]. apply isDigit_val in C.
    specialize (IH D (10 * acc + digitVal c) ltac:(lia)).
    rewrite Nat2Z.inj_succ, Z.pow_succ_r by lia.
    assert (P : 0 < 10 ^ Z.of_nat (String.length s)) by (apply Z.pow_pos_nonneg; lia).
    remember (10 ^ Z.of_nat (String.length s)) as p eqn:Ep. clear Ep.
    remember (digitVal c) as v eqn:Ev. clear Ev.
    remember (decimalFrom (10 * acc + v) s) as r eqn:Er. clear Er.
    split; nia.
Qed.

Lemma decimal_bounds (s : string) :
  allDigits s = true -> 0 <= decimal s < 10 ^ Z.of_nat (String.length s).
Proof.
  intros D. pose proof (decimalFrom_bounds s D 0 ltac:(lia)) as B.
  unfold decimal. lia.
Qed.

Lemma span_isDigit (s : string) : allDigits (fst (span isDigit s)) = true.
Proof.
  induction s as [|c s IH]; cbn; [reflexivity|].
  destruct (isDigit c) eqn:C; [|reflexivity].
  destruct (span isDigit s) as [tok rest]. cbn in *. now rewrite C, IH.
Qed.

Lemma take_allDigits (n : nat) (s : string) :
  allDigits s = true -> allDigits (take n s) = true.
Proof.
  revert s. induction n as [|n IH]; intros [|c s]; cbn; auto.
  rewrite !andb_true_iff. intros [C D]. auto.
Qed.

Lemma take_length (n : nat) (s : string) : (String.length (take n s) <= n)%nat.
Proof.
  revert s. induction n as [|n IH]; intros [|c s]; cbn; try lia.
  specialize (IH s). lia.
Qed.

Lemma fraction_range (value : string) (ns : Z) (rest : string) :
  fraction value = Some (ns, rest) -> 0 <= ns < Second.
Proof.
  unfold fraction. destruct value as [|sep [|d r]]; try discriminate.
  destruct (commaOrPeriod sep && isDigit d); [|discriminate].
  pose proof (span_isDigit (String d r)) as D.
  destruct (span isDigit (String d r)) as [ds rest']. cbn [fst] in D.
  cbv zeta.
  pose proof (take_allDigits 9 ds D) as D9.
  pose proof (take_length 9 ds) as L9.
  pose proof (decimal_bounds _ D9) as B.
  remember (take 9 ds) as ds9 eqn:E. clear E.
  remember (Z.of_nat (String.length ds9)) as n eqn:En.
  assert (N : 0 <= n <= 9) by lia. clear En L9 D9 D.
  assert (P : 10 ^ n * 10 ^ (9 - n) = 1000000000).
  { rewrite <- Z.pow_add_r by lia. replace (n + (9 - n)) with 9 by lia. reflexivity. }
  assert (Q : 0 < 10 ^ (9 - n)) by (apply Z.pow_pos_nonneg; lia).
  remember (10 ^ (9 - n)) as q eqn:Eq. clear Eq.
  remember (10 ^ n) as p eqn:Ep. clear Ep.
  assert (R : 0 <= decimal ds9 * q < p * q)
    by (split; [apply Z.mul_nonneg_nonneg | apply Z.mul_lt_mono_pos_r]; lia).
  remember (decimal ds9 * q) as v eqn:Ev. clear Ev.
  intros [= <- <-].
  unfold Second, Millisecond, Microsecond, Nanosecond. lia.
Qed.

Lemma parseChunk_wf (std : stdChunk) (value : string) (f f1 : fields) (v1 : string) :
  wfFields f -> parseChunk std value f = Ok (f1, v1) -> wfFields f1.
Proof.
  intros (M & D & H & Mi & S & N).
  unfold Second, Millisecond, Microsecond, Nanosecond in N.
  destruct std; cbn [parseChunk].
  - intros [= <- <-]. repeat split; cbn; auto; try lia.
  - destruct (_ && _); [|discriminate]. intros [= <- <-].
    repeat split; cbn; auto; try lia.
  - destruct (getnum value true) as [[m v]|] eqn:G; [|discriminate].
    destruct (_ || _) eqn:B; [discriminate|]. intros [= <- <-]. bools.
    repeat split; cbn; auto; try lia.
  - destruct (getnum value true) as [[m v]|] eqn:G; [|discriminate].
    apply getnum_range in G. intros [= <- <-].
    repeat split; cbn; auto; try lia.
  - destruct (getnum value false) as [[m v]|] eqn:G; [|discriminate].
    destruct (_ || _) eqn:B; [discriminate|]. intros [= <- <-]. bools.
    repeat split; cbn; auto; try lia.
  - destruct (getnum value true) as [[m v]|] eqn:G; [|discriminate].
    destruct (_ || _) eqn:B; [discriminate|]. intros [= <- <-]. bools.
    repeat split; cbn; auto; try lia.
  - destruct (getnum value true) as [[m v]|] eqn:G; [|discriminate].
    destruct (_ || _) eqn:B; [discriminate|]. bools.
    destruct (fraction v) as [[ns v']|] eqn:F.
    + apply fraction_range in F.
      unfold Second, Millisecond, Microsecond, Nanosecond in F. intros [= <- <-].
      repeat split; cbn; auto; try lia.
    + intros [= <- <-]. repeat split; cbn; auto; try lia.
Qed.

Lemma parseChunk_other (std std' : stdChunk) (value : string) (f f1 : fields)
      (v1 : string) :
  std' <> std -> parseChunk std value f = Ok (f1, v1) ->
  fieldOf std' f1 = fieldOf std' f.
Proof.
  intros NE. destruct std; cbn [parseChunk];
    repeat match goal with
           | |- context [getnum ?v ?b] => destruct (getnum v b) as [[? ?]|]
           | |- context [if ?c then _ else _] => destruct c
           | |- context [fraction ?v] => destruct (fraction v) as [[? ?]|]
           end;
    try discriminate; intros [= <- <-]; destruct std'; try reflexivity;
    now contradiction NE.
Qed.

Lemma parseChunk_nsec (std : stdChunk) (value : string) (f f1 : fields) (v1 : string) :
  std <> stdZeroSecond -> parseChunk std value f = Ok (f1, v1) -> fnsec f1 = fnsec f.
Proof.
  intros NE. destruct std; cbn [parseChunk];
    repeat match goal with
           | |- context [getnum ?v ?b] => destruct (getnum v b) as [[? ?]|]
           | |- context [if ?c then _ else _] => destruct c
           end;
    try discriminate; try (intros [= <- <-]; reflexivity).
  now contradiction NE.
Qed.

Lemma parseLoop_inv (fuel : nat) :
  forall (layout value : string) (f f' : fields),
    parseLoop fuel layout value f = Ok f' -> wfFields f ->
    wfFields f' /\
    (forall std, ~ In std (chunksOf fuel layout) -> fieldOf std f' = fieldOf std f) /\
    (~ In stdZeroSecond (chunksOf fuel layout) -> fnsec f' = fnsec f).
Proof.
  induction fuel as [|fuel IH]; intros layout value f f'; cbn [parseLoop chunksOf];
    [discriminate|].
  destruct (nextStdChunk layout) as [[pre std] suffix].
  destruct (skip value pre) as [value1|]; [|discriminate].
  assert (Step : forall f1 value2,
             std <> stdNone ->
             parseChunk std value1 f = Ok (f1, value2) ->
             parseLoop fuel suffix value2 f1 = Ok f' -> wfFields f ->
             wfFields f' /\
             (forall std', ~ In std' (std :: chunksOf fuel suffix) ->
                           fieldOf std' f' = fieldOf std' f) /\
             (~ In stdZeroSecond (std :: chunksOf fuel suffix) -> fnsec f' = fnsec f)).
  { intros f1 value2 NN PC PL W.
    pose proof (parseChunk_wf _ _ _ _ _ W PC) as W1.
    destruct (IH _ _ _ _ PL W1) as (W' & O & N).
    split; [exact W'|]. split.
    - intros std' NI. rewrite O by (intros I; apply NI; now right).
      apply (parseChunk_other std std' value1 f f1 value2); [|exact PC].
      intros ->. apply NI. now left.
    - intros NI. rewrite N by (intros I; apply NI; now right).
      apply (parseChunk_nsec std value1 f f1 value2); [|exact PC].
      intros ->. apply NI. now left. }
  destruct std.
  - destruct value1; [|discriminate]. intros [= <-] W. repeat split; auto; apply W.
  - destruct (parseChunk stdLongYear value1 f) as [[f1 value2]|] eqn:PC; [|discriminate].
    intros PL W. apply (Step f1 value2); auto; discriminate.
  - destruct (parseChunk stdZeroMonth value1 f) as [[f1 value2]|] eqn:PC; [|discriminate].
    intros PL W. apply (Step f1 value2); auto; discriminate.
  - destruct (parseChunk stdZeroDay value1 f) as [[f1 value2]|] eqn:PC; [|discriminate].
    intros PL W. apply (Step f1 value2); auto; discriminate.
  - destruct (parseChunk stdHour value1 f) as [[f1 value2]|] eqn:PC; [|discriminate].
    intros PL W. apply (Step f1 value2); auto; discriminate.
  - destruct (parseChunk stdZeroMinute value1 f) as [[f1 value2]|] eqn:PC; [|discriminate].
    intros PL W. apply (Step f1 value2); auto; discriminate.
  - destruct (parseChunk stdZeroSecond value1 f) as [[f1 value2]|] eqn:PC; [|discriminate].
    intros PL W. apply (Step f1 value2); auto; discriminate.
Qed.

Lemma noFields_wf : wfFields noFields.
Proof.
  unfold wfFields, noFields, validClock, Second, Millisecond, Microsecond, Nanosecond.
  cbn. lia.
Qed.

(** A text a layout parses is the [Date] of a date of the calendar and a
    time of the day; the elements the layout lacks are left at their
    defaults: year 0, month and day 1, midnight. *)
Lemma ParseInLocation_inv (layout value : string) (t : Time) :
  ParseInLocation layout value = Ok t ->
  exists y mo d h mi s ns,
    t = Date y mo d h mi s ns /\ validDate y mo d /\ validClock h mi s ns /\
    (~ In stdLongYear (elements layout) -> y = 0) /\
    (~ In stdZeroMonth (elements layout) -> mo = 1) /\
    (~ In stdZeroDay (elements layout) -> d = 1) /\
    (~ In stdHour (elements layout) -> h = 0) /\
    (~ In stdZeroMinute (elements layout) -> mi = 0) /\
    (~ In stdZeroSecond (elements layout) -> s = 0 /\ ns = 0).
Proof.
  unfold ParseInLocation, elements.
  destruct (parseLoop _ layout value noFields) as [f|] eqn:PL; [|discriminate].
  destruct (parseLoop_inv _ _ _ _ _ PL noFields_wf) as ((M & D & C) & O & N).
  destruct (_ || _) eqn:B; [discriminate|]. intros [= <-]. bools.
  exists (fyear f), (if fmonth f <? 0 then 1 else fmonth f),
    (if fday f <? 0 then 1 else fday f), (fhour f), (fmin f), (fsec f), (fnsec f).
  split; [reflexivity|]. split; [|split; [exact C|]].
  - split; [destruct (Z.ltb_spec (fmonth f) 0); lia | lia].
  - repeat split.
    + intros NI. apply (O stdLongYear NI).
    + intros NI. pose proof (O stdZeroMonth NI) as E. cbn in E. rewrite E. reflexivity.
    + intros NI. pose proof (O stdZeroDay NI) as E. cbn in E. rewrite E. reflexivity.
    + intros NI. apply (O stdHour NI).
    + intros NI. apply (O stdZeroMinute NI).
    + apply (O stdZeroSecond). assumption.
    + apply N. assumption.
Qed.

(* ------------------------------------------------------------------ *)
(** * Completion by [AddDate] *)

Lemma daysIn_bounds (m y : Z) : 1 <= m <= 12 -> 28 <= daysIn m y <= 31.
Proof. intros M. rewrite daysIn_leap. now apply daysInLeap_bounds. Qed.

Lemma daysIn_leap_year (m y : Z) :
  1 <= m <= 12 ->
  daysIn m 0 = daysIn m y \/ (m = 2 /\ daysIn m 0 = 29 /\ daysIn m y = 28).
Proof.
  intros M. rewrite !daysIn_leap. change (isLeap 0) with true.
  assert (E : m = 1 \/ m = 2 \/ m = 3 \/ m = 4 \/ m = 5 \/ m = 6 \/ m = 7 \/
              m = 8 \/ m = 9 \/ m = 10 \/ m = 11 \/ m = 12) by lia.
  destruct (isLeap y); decompose [or] E; subst m;
    first [left; reflexivity | right; repeat split; reflexivity].
Qed.

(** A day past the end of its month, but no later than the 31st, falls on
    the first days of the next month of the same year. *)
Lemma Date_overflow_fields (Y M d h mi s ns : Z) :
  1 <= M <= 12 -> daysIn M Y < d <= 31 -> validClock h mi s ns ->
  let r := Date Y M d h mi s ns in
  yearOf r = Y /\ monthOf r = M + 1 /\ dayOf r = d - daysIn M Y /\
  hourOf r = h /\ minuteOf r = mi /\ secondOf r = s /\ nsecOf r = ns.
Proof.
  intros HM D C r. subst r.
  assert (M11 : M <= 11).
  { destruct (Z.eq_dec M 12) as [->|]; [|lia].
    change (daysIn 12 Y) with 31 in D. lia. }
  pose proof (daysIn_bounds M Y HM) as B.
  pose proof (daysIn_bounds (M + 1) Y ltac:(lia)) as B1.
  pose proof (Date_day_overflow Y M (d - daysIn M Y) h mi s ns HM) as E.
  replace (daysIn M Y + (d - daysIn M Y)) with d in E by lia. rewrite E.
  apply fields_of_Date; [|exact C]. split; lia.
Qed.

Lemma Date_year_kept (Y M d h mi s ns : Z) :
  1 <= M <= 12 -> 1 <= d <= 31 -> validClock h mi s ns ->
  yearOf (Date Y M d h mi s ns) = Y.
Proof.
  intros HM D C. destruct (Z.le_gt_cases d (daysIn M Y)) as [L|G].
  - apply (fields_of_Date Y M d h mi s ns); [split; lia | exact C].
  - apply (Date_overflow_fields Y M d h mi s ns); [exact HM | lia | exact C].
Qed.

Lemma complete_full (now t : Time) : complete now full t = t.
Proof. reflexivity. Qed.

Lemma complete_noyear (now : Time) (y mo d h mi s ns : Z) :
  validDate y mo d -> validClock h mi s ns ->
  complete now noyear (Date y mo d h mi s ns)
  = Date (y + yearOf now) mo d h mi s ns.
Proof.
  intros V C. unfold complete. change (noyear >=? noyear) with true.
  change (noyear >=? nomonth) with false. cbv iota.
  rewrite AddDate_Date by assumption. now rewrite !Z.add_0_r.
Qed.

Lemma complete_nomonth (now : Time) (y d h mi s ns : Z) :
  validDate y 1 d -> validClock h mi s ns ->
  complete now nomonth (Date y 1 d h mi s ns)
  = Date (y + yearOf now) (monthOf now) d h mi s ns.
Proof.
  intros V C. unfold complete. change (nomonth >=? noyear) with true.
  change (nomonth >=? nomonth) with true. cbv iota.
  rewrite AddDate_Date by assumption. rewrite !Z.add_0_r.
  rewrite AddDate_Date; [|split; [lia|] | exact C].
  - rewrite !Z.add_0_r. f_equal. lia.
  - destruct V as [_ V]. change (daysIn 1 y) with 31 in V.
    change (daysIn 1 (y + yearOf now)) with 31. exact V.
Qed.

(** What the layouts of [specs] lack is what their [lacks] says. *)
Lemma specs_lack (sp : tSpec) :
  In sp specs ->
  (lacks sp = full \/ lacks sp = noyear \/ lacks sp = nomonth) /\
  (lacks sp <> full -> ~ In stdLongYear (elements (spec sp))) /\
  (lacks sp = nomonth -> ~ In stdZeroMonth (elements (spec sp))).
Proof.
  unfold specs. cbn [In]. intros I.
  repeat (destruct I as [<-|I]; [closed; auto; intuition discriminate|]).
  contradiction.
Qed.

Lemma complete_noyear_eq (now t : Time) :
  complete now noyear t = AddDate t (yearOf now) 0 0.
Proof. reflexivity. Qed.

Lemma complete_nomonth_eq (now t : Time) :
  complete now nomonth t = AddDate (AddDate t (yearOf now) 0 0) 0 (monthOf now - 1) 0.
Proof. reflexivity. Qed.

(** The layout at position [n] parses the text and none before it does. *)
Lemma rangeSpecs_at (now : Time) (l : list tSpec) (tspec : string) (n : nat)
      (sp : tSpec) (t : Time) :
  forallb (fun q => negb (isOk (ParseInLocation (spec q) tspec))) (firstn n l) = true ->
  nth_error l n = Some sp ->
  ParseInLocation (spec sp) tspec = Ok t ->
  rangeSpecs now l tspec = Ok (complete now (lacks sp) t).
Proof.
  revert l. induction n as [|n IH]; intros [|q l]; cbn; try discriminate.
  - intros _ [= ->] ->. reflexivity.
  - intros F N P. apply andb_true_iff in F as [Q F].
    destruct (ParseInLocation (spec q) tspec); [discriminate|]. now apply IH.
Qed.

Lemma parseTime_Ok (tspec : string) (w : World) (hr min secs : Z) :
  scanHHMM tspec = Ok (hr, min, secs) ->
  exists t, parseHHMM tspec w = (Ok t, snd (timeNow w)) /\
            parseTime tspec w = (Ok t, snd (timeNow w)).
Proof.
  intros Sc. unfold parseTime, parseHHMM. rewrite Sc. unfold timeNow.
  cbv beta iota zeta. cbn [snd]. destruct (_ && _); eexists; split; reflexivity.
Qed.

(** [parseTime] on a text the simple form does not scan: the first layout
    of [specs] that parses it. *)
Lemma parseTime_at (tspec : string) (w : World) (n : nat) (sp : tSpec) (t : Time) :
  isOk (scanHHMM tspec) = false ->
  forallb (fun q => negb (isOk (ParseInLocation (spec q) tspec))) (firstn n specs) = true ->
  nth_error specs n = Some sp ->
  ParseInLocation (spec sp) tspec = Ok t ->
  parseTime tspec w = (Ok (complete (wallclock w) (lacks sp) t), snd (timeNow w)).
Proof.
  intros S F N P. destruct (scanHHMM tspec) as [|e] eqn:Sc; [discriminate|].
  rewrite (parseTime_Err _ _ _ Sc). now rewrite (rangeSpecs_at _ _ _ _ _ _ F N P).
Qed.

(* ------------------------------------------------------------------ *)
(** * [Sscanf] on clock-time texts *)

Lemma isDigit_code (c : ascii) : isDigit c = true -> 48 <= code c <= 57.
Proof. unfold isDigit. rewrite andb_true_iff, !Z.leb_le. tauto. Qed.

Lemma isDigit_number (c : ascii) : isDigit c = true -> isNumberByte c = true.
Proof. unfold isNumberByte. now intros ->. Qed.

Lemma isDigit_not_sign (c : ascii) : isDigit c = true -> isSign c = false.
Proof.
  intros D. apply isDigit_code in D. unfold isSign.
  destruct (Z.eqb_spec (code c) 43), (Z.eqb_spec (code c) 45); try lia; reflexivity.
Qed.

Lemma spaceRune_digit (c : ascii) (r : string) :
  isDigit c = true -> spaceRune (String c r) = None.
Proof.
  intros D. apply isDigit_code in D. unfold spaceRune, byteIn.
  rewrite (proj2 (Z.leb_gt (code c) 13)) by lia.
  repeat match goal with
         | |- context [code c =? ?k] => rewrite (proj2 (Z.eqb_neq (code c) k)) by lia
         end.
  rewrite andb_false_r. cbn [andb orb]. destruct r as [|b [|c' r3]]; reflexivity.
Qed.

Lemma SkipSpace_digit (c : ascii) (r : string) :
  isDigit c = true -> SkipSpace (String c r) = Ok (String c r).
Proof.
  intros D. unfold SkipSpace. cbn [String.length skipSpaceFuel].
  rewrite (spaceRune_digit c r D). apply isDigit_code in D.
  rewrite (proj2 (Z.eqb_neq (code c) 10)) by lia. reflexivity.
Qed.

Lemma span_numeral (ds rest : string) :
  allDigits ds = true -> endsNumber rest = true ->
  span isNumberByte (ds ++ rest) = (ds, rest).
Proof.
  intros D E. induction ds as [|c ds IH]; cbn [append allDigits] in *.
  - destruct rest as [|c r]; [reflexivity|]. cbn in *.
    apply negb_true_iff in E. now rewrite E.
  - apply andb_true_iff in D as [C D]. cbn [span].
    rewrite (isDigit_number c C), (IH D). reflexivity.
Qed.

Lemma ParseInt_numeral (ds : string) :
  allDigits ds = true -> decimal ds <= maxInt64 ->
  ParseInt false ds = Ok (decimal ds).
Proof.
  intros D M. unfold ParseInt. rewrite D.
  pose proof (decimal_bounds ds D) as [B _].
  rewrite (proj2 (Z.leb_le minInt64 (decimal ds))), (proj2 (Z.leb_le _ _) M);
    [reflexivity|].
  unfold minInt64. change (- 2 ^ 63) with (-9223372036854775808). lia.
Qed.

(** [%d] on a run of digits that fits [int64]: its value, and the text
    after it. *)
Lemma scanInt_numeral (ds rest : string) :
  isNumeral ds = true -> decimal ds <= maxInt64 -> endsNumber rest = true ->
  scanInt (ds ++ rest) = Ok (decimal ds, rest).
Proof.
  intros N M E. destruct ds as [|c ds]; [discriminate|].
  cbn [isNumeral] in N. pose proof N as D. cbn [allDigits] in D.
  apply andb_true_iff in D as [C D].
  unfold scanInt. cbn [append]. rewrite (SkipSpace_digit c _ C).
  rewrite (isDigit_not_sign c C), (isDigit_number c C).
  change (String c (ds ++ rest)) with (String c ds ++ rest)%string.
  rewrite (span_numeral _ _ N E), (ParseInt_numeral _ N M). reflexivity.
Qed.

Lemma append_empty (s : string) : (s ++ "")%string = s.
Proof. induction s as [|c s IH]; cbn; [reflexivity|now rewrite IH]. Qed.

Lemma scanInt_numeral_end (ds : string) :
  isNumeral ds = true -> decimal ds <= maxInt64 ->
  scanInt ds = Ok (decimal ds, EmptyString).
Proof.
  intros N M. rewrite <- (append_empty ds) at 1.
  now apply scanInt_numeral.
Qed.







(* ================================================================== *)
(** * The parser as specified *)

(** C5. When the hour and the minute of a clock-time text are those of the
    current reading and its seconds (0 when left out) are not after the
    current second, [parseHHMM], and with it [parseTime], returns today's
    date with the given time of the day as it is: 24 hours are not added,
    although this time is at or before now (strictly before when the
    seconds differ). *)
Theorem C5_same_minute_unchanged (tspec : string) (w : World) (hr min secs : Z) :
  let now := wallclock w in
  let tgt := Date (yearOf now) (monthOf now) (dayOf now) hr min secs 0 in
  scanHHMM tspec = Ok (hr, min, secs) ->
  hourOf now = hr -> minuteOf now = min -> secs <= secondOf now ->
  parseHHMM tspec w = (Ok tgt, snd (timeNow w)) /\
  parseTime tspec w = (Ok tgt, snd (timeNow w)) /\
  tgt <= now /\
  (secs < secondOf now -> Before tgt now = true) /\
  tgt <> Add tgt (Hour * 24).
Proof.
  intros now tgt Sc H M S.
  assert (P : parseHHMM tspec w = (Ok tgt, snd (timeNow w))).
  { unfold parseHHMM. rewrite Sc. cbn [timeNow]. fold now.
    rewrite <- H, <- M, !Z.eqb_refl. cbn [andb].
    destruct (Z.geb_spec (secondOf now) secs) as [_|L]; [|lia].
    subst tgt. rewrite <- H, <- M. reflexivity. }
  split; [exact P|]. split; [apply parseTime_simple; exact P|].
  subst tgt. rewrite <- H, <- M. split; [apply today_le; exact S|]. split.
  - intros L. apply Z.ltb_lt. apply today_lt. exact L.
  - unfold Add, Hour, Minute, Second, Millisecond, Microsecond, Nanosecond. lia.
Qed.

Lemma C5_same_minute_unchanged_witness :
  let w := mkWorld (Date 2024 4 10 17 1 33 0) 0 [] in
  parseTime "17:01" w = (Ok (Date 2024 4 10 17 1 0 0), snd (timeNow w)).
Proof.
  intros w.
  pose proof (C5_same_minute_unchanged "17:01" w 17 1 0) as T.
  cbv zeta in T.
  assert (Y : yearOf (wallclock w) = 2024) by (vm_compute; reflexivity).
  assert (M : monthOf (wallclock w) = 4) by (vm_compute; reflexivity).
  assert (D : dayOf (wallclock w) = 10) by (vm_compute; reflexivity).
  rewrite Y, M, D in T.
  apply T.
  - vm_compute. reflexivity.
  - vm_compute. reflexivity.
  - vm_compute. reflexivity.
  - vm_compute. discriminate.
Defined.

Lemma roll_forward (tspec : string) (w : World) (hr min secs : Z) (now tgt : Time) :
  now = wallclock w ->
  tgt = Date (yearOf now) (monthOf now) (dayOf now) hr min secs 0 ->
  scanHHMM tspec = Ok (hr, min, secs) ->
  (hourOf now =? hr) && (minuteOf now =? min) && (secondOf now >=? secs) = false ->
  (tgt < now ->
   parseHHMM tspec w = (Ok (Add tgt (Hour * 24)), snd (timeNow w)) /\
   parseTime tspec w = (Ok (tgt + 86400 * Second), snd (timeNow w))) /\
  (now <= tgt ->
   parseHHMM tspec w = (Ok tgt, snd (timeNow w)) /\
   parseTime tspec w = (Ok tgt, snd (timeNow w))).
Proof.
  intros En Et Sc NS.
  pose proof (parseHHMM_Ok tspec w hr min secs Sc now tgt En Et) as P.
  rewrite NS in P. clear En Et NS Sc.
  unfold Before in P. split; intros L.
  - destruct (Z.ltb_spec tgt now) as [_|G]; [|lia].
    assert (E : Add tgt (Hour * 24) = tgt + 86400 * Second)
      by (unfold Add, Hour, Minute; lia).
    split; [exact P|]. rewrite <- E. apply parseTime_simple. exact P.
  - destruct (Z.ltb_spec tgt now) as [G|_]; [lia|].
    split; [exact P|]. apply parseTime_simple. exact P.
Qed.

(** C6. When a clock-time text does not meet the same-minute case,
    [parseHHMM], and with it [parseTime], returns today's date with the
    given time of the day plus the fixed duration of 24 hours
    (86400 seconds) if that time is strictly before now, and returns it as
    it is if it is at or after now. *)
Theorem C6_roll_forward (tspec : string) (w : World) (hr min secs : Z) :
  let now := wallclock w in
  let tgt := Date (yearOf now) (monthOf now) (dayOf now) hr min secs 0 in
  scanHHMM tspec = Ok (hr, min, secs) ->
  (hourOf now =? hr) && (minuteOf now =? min) && (secondOf now >=? secs) = false ->
  (tgt < now ->
   parseHHMM tspec w = (Ok (Add tgt (Hour * 24)), snd (timeNow w)) /\
   parseTime tspec w = (Ok (tgt + 86400 * Second), snd (timeNow w))) /\
  (now <= tgt ->
   parseHHMM tspec w = (Ok tgt, snd (timeNow w)) /\
   parseTime tspec w = (Ok tgt, snd (timeNow w))).
Proof.
  intros now tgt. exact (roll_forward tspec w hr min secs now tgt eq_refl eq_refl).
Qed.

Lemma C6_roll_forward_witness :
  let w := mkWorld (Date 2024 4 10 14 0 0 0) 0 [] in
  parseTime "08:00" w = (Ok (Date 2024 4 11 8 0 0 0), snd (timeNow w)).
Proof.
  intros w.
  pose proof (C6_roll_forward "08:00" w 8 0 0) as T.
  cbv zeta in T.
  assert (Y : yearOf (wallclock w) = 2024) by (vm_compute; reflexivity).
  assert (M : monthOf (wallclock w) = 4) by (vm_compute; reflexivity).
  assert (D : dayOf (wallclock w) = 10) by (vm_compute; reflexivity).
  rewrite Y, M, D in T.
  assert (E : Date 2024 4 10 8 0 0 0 + 86400 * Second = Date 2024 4 11 8 0 0 0)
    by (vm_compute; reflexivity).
  rewrite E in T.
  apply T.
  - vm_compute. reflexivity.
  - vm_compute. reflexivity.
  - vm_compute. reflexivity.
Defined.

(** C7. On the path of the layouts the completion is unconditional and
    cumulative: a layout that lacks nothing leaves the parsed time as it
    is; one that lacks the year was parsed with year 0 and gets the
    current year added; one that lacks the month too was parsed with year
    0 and month 1 and gets the current year added and then the current
    month less one, which is the [Date] of the current year, the current
    month and the parsed day and time.  The year of every completed time
    is the current year, whether or not the time is in the past: the text
    12-25 read in 2024 is 2024-12-25 00:00:00. *)
Theorem C7_completion_is_cumulative (now : Time) (sp : tSpec) (tspec : string)
        (t : Time) :
  In sp specs -> ParseInLocation (spec sp) tspec = Ok t ->
  (lacks sp = full -> complete now (lacks sp) t = t) /\
  (lacks sp = noyear ->
   yearOf t = 0 /\
   complete now (lacks sp) t = AddDate t (yearOf now) 0 0 /\
   complete now (lacks sp) t
   = Date (yearOf now) (monthOf t) (dayOf t)
          (hourOf t) (minuteOf t) (secondOf t) (nsecOf t)) /\
  (lacks sp = nomonth ->
   yearOf t = 0 /\ monthOf t = 1 /\
   complete now (lacks sp) t
   = AddDate (AddDate t (yearOf now) 0 0) 0 (monthOf now - 1) 0 /\
   complete now (lacks sp) t
   = Date (yearOf now) (monthOf now) (dayOf t)
          (hourOf t) (minuteOf t) (secondOf t) (nsecOf t)) /\
  (lacks sp <> full -> yearOf (complete now (lacks sp) t) = yearOf now) /\
  (forall w : World,
      yearOf (wallclock w) = 2024 ->
      parseTime "12-25" w = (Ok (Date 2024 12 25 0 0 0 0), snd (timeNow w))).
Proof.
  intros I P.
  destruct (ParseInLocation_inv _ _ _ P)
    as (y & mo & d & h & mi & s & ns & -> & V & C & Ny & Nm & _).
  destruct (specs_lack sp I) as (K & LY & LM).
  destruct (fields_of_Date _ _ _ _ _ _ _ V C) as (Fy & Fmo & Fd & Fh & Fmi & Fs & Fns).
  destruct (Date_of_fields now) as ((Mnow & _) & _ & _).
  pose proof (daysIn_bounds mo y (proj1 V)) as B.
  split; [intros E; rewrite E; apply complete_full|].
  split; [|split; [|split]].
  - intros E. assert (Y0 : y = 0) by (apply Ny, LY; rewrite E; discriminate).
    rewrite Fy, Fmo, Fd, Fh, Fmi, Fs, Fns, E. subst y.
    split; [reflexivity|]. split; [apply complete_noyear_eq|].
    now rewrite complete_noyear, Z.add_0_l.
  - intros E. assert (Y0 : y = 0) by (apply Ny, LY; rewrite E; discriminate).
    assert (M1 : mo = 1) by (apply Nm, LM, E).
    rewrite Fy, Fmo, Fd, Fh, Fmi, Fs, Fns, E. subst y mo.
    split; [reflexivity|]. split; [reflexivity|]. split; [apply complete_nomonth_eq|].
    now rewrite complete_nomonth, Z.add_0_l.
  - intros NF. assert (Y0 : y = 0) by (apply Ny, LY, NF). subst y.
    destruct K as [K|[K|K]]; [contradiction| |].
    + rewrite K, complete_noyear, Z.add_0_l by assumption.
      apply Date_year_kept; [apply V | destruct V; lia | exact C].
    + assert (M1 : mo = 1) by (apply Nm, LM, K). subst mo.
      rewrite K, complete_nomonth, Z.add_0_l by assumption.
      apply Date_year_kept; [exact Mnow | destruct V; lia | exact C].
  - intros w Y.
    rewrite (parseTime_at "12-25" w 5 (mkSpec "01-02" noyear) (Date 0 12 25 0 0 0 0))
      by (vm_compute; reflexivity).
    cbn [lacks]. rewrite complete_noyear, Z.add_0_l, Y by closed. reflexivity.
Qed.

Lemma C7_completion_is_cumulative_witness :
  let now := Date 2024 12 31 9 0 0 0 in
  complete now noyear (Date 0 12 25 0 0 0 0) = Date 2024 12 25 0 0 0 0 /\
  Date 2024 12 25 0 0 0 0 < now.
Proof.
  intros now.
  destruct (C7_completion_is_cumulative now (mkSpec "01-02" noyear) "12-25"
              (Date 0 12 25 0 0 0 0)) as (_ & N & _).
  - vm_compute. auto 10.
  - vm_compute. reflexivity.
  - destruct (N eq_refl) as (_ & _ & E). cbn [lacks] in E. split.
    + rewrite E. vm_compute. reflexivity.
    + vm_compute. reflexivity.
Defined.

(** C8, as the code has it.  The layouts are tried in the order of the
    list and the first one that parses the text wins: whatever follows it
    in the list, the result is the completion of what that layout parsed;
    and a result always comes from a layout before which every layout
    failed.  The text 2024-03-01 09:30:15 is not parsed by the first
    layout, which has no seconds, but by the second, and keeps its 15
    seconds.  The match is that of [time.ParseInLocation], which uses up
    the whole text but is not bound to the widths and separators of the
    layout: an hour of one digit, several spaces for one and a fraction
    after the seconds are parsed too. *)
Theorem C8_first_layout_wins (now : Time) (tspec : string) :
  (forall (l1 : list tSpec) (sp : tSpec) (l2 : list tSpec) (t : Time),
      Forall (fails tspec) l1 ->
      ParseInLocation (spec sp) tspec = Ok t ->
      rangeSpecs now (l1 ++ sp :: l2) tspec = Ok (complete now (lacks sp) t)) /\
  (forall r : Time,
      rangeSpecs now specs tspec = Ok r ->
      exists l1 sp l2 t,
        specs = l1 ++ sp :: l2 /\ Forall (fails tspec) l1 /\
        ParseInLocation (spec sp) tspec = Ok t /\ r = complete now (lacks sp) t) /\
  nth_error specs 0 = Some (mkSpec "2006-01-02 15:04" full) /\
  nth_error specs 1 = Some (mkSpec "2006-01-02 15:04:05" full) /\
  ParseInLocation "2006-01-02 15:04" "2024-03-01 09:30:15" = Err "extra text" /\
  ParseInLocation "2006-01-02 15:04:05" "2024-03-01 09:30:15"
  = Ok (Date 2024 3 1 9 30 15 0) /\
  (forall w : World,
      parseTime "2024-03-01 09:30:15" w
      = (Ok (Date 2024 3 1 9 30 15 0), snd (timeNow w))) /\
  secondOf (Date 2024 3 1 9 30 15 0) = 15 /\
  ParseInLocation "2006-01-02 15:04" "2024-03-01 9:30"
  = Ok (Date 2024 3 1 9 30 0 0) /\
  ParseInLocation "2006-01-02 15:04" "2024-03-01   09:30"
  = Ok (Date 2024 3 1 9 30 0 0) /\
  ParseInLocation "2006-01-02 15:04:05" "2024-03-01 09:30:15.25"
  = Ok (Date 2024 3 1 9 30 15 250000000).
Proof.
  split; [intros l1 sp l2 t; apply rangeSpecs_first|].
  split; [intros r; apply rangeSpecs_Ok_inv|].
  split; [reflexivity|]. split; [reflexivity|].
  split; [vm_compute; reflexivity|]. split; [vm_compute; reflexivity|].
  split; [|repeat split; vm_compute; reflexivity].
  intros w.
  rewrite (parseTime_at "2024-03-01 09:30:15" w 1 (mkSpec "2006-01-02 15:04:05" full)
             (Date 2024 3 1 9 30 15 0)) by (vm_compute; reflexivity).
  reflexivity.
Qed.

Lemma C8_first_layout_wins_witness :
  rangeSpecs 0 ([mkSpec "2006-01-02 15:04" full]
                  ++ mkSpec "2006-01-02 15:04:05" full :: [mkSpec "2006-01-02" full])
             "2024-03-01 09:30:15"
  = Ok (complete 0 full (Date 2024 3 1 9 30 15 0)).
Proof.
  apply (proj1 (C8_first_layout_wins 0 "2024-03-01 09:30:15")).
  - constructor; [vm_compute; reflexivity | constructor].
  - vm_compute. reflexivity.
Defined.

(** C8, counterexample.  The layouts are not matched strictly: the first
    layout parses 2024-03-01 9:30, whose hour has one digit where the
    layout has two. *)
Lemma C8_layout_match_is_not_strict : ~ strictLayoutMatch.
Proof.
  intros H.
  specialize (H (mkSpec "2006-01-02 15:04" full) "2024-03-01 9:30"%string).
  assert (C : conforms "2006-01-02 15:04" "2024-03-01 9:30" = false)
    by (vm_compute; reflexivity).
  cbn [spec] in H. rewrite C in H.
  assert (F : false = true); [|discriminate F].
  apply H; [left; reflexivity | vm_compute; reflexivity].
Qed.

(** C9. [parseTime] returns an error exactly when the text is scanned by
    neither form of the simple path and parsed by none of the nine
    layouts; otherwise it returns a time.  Its only error is the one for a
    text that cannot be parsed, as for not-a-time. *)
Theorem C9_only_error (tspec : string) (w : World) :
  (isOk (fst (parseTime tspec w)) = false <->
   isOk (scanHHMM tspec) = false /\ Forall (fails tspec) specs) /\
  (isOk (fst (parseTime tspec w)) = true <->
   isOk (scanHHMM tspec) = true \/ Exists (fun sp => ~ fails tspec sp) specs) /\
  (forall e : string,
      fst (parseTime tspec w) = Err e -> e = "cannot parse time argument"%string) /\
  List.length specs = 9%nat /\
  fst (parseTime "not-a-time" w) = Err "cannot parse time argument".
Proof.
  assert (A : isOk (fst (parseTime tspec w)) = false <->
              isOk (scanHHMM tspec) = false /\ Forall (fails tspec) specs).
  { destruct (scanHHMM tspec) as [[[hr mi] secs]|e] eqn:Sc.
    - destruct (parseTime_Ok tspec w hr mi secs Sc) as (t & _ & ->). cbn.
      split; [discriminate|]. intros [? _]. discriminate.
    - rewrite (parseTime_Err _ _ _ Sc). cbn [fst isOk]. rewrite rangeSpecs_fails.
      tauto. }
  split; [exact A|]. split; [|split; [|split]].
  - assert (Dec : forall sp, fails tspec sp \/ ~ fails tspec sp).
    { intros sp. unfold fails.
      destruct (isOk (ParseInLocation (spec sp) tspec)); [right|left];
        [discriminate|reflexivity]. }
    rewrite <- not_false_iff_true, A.
    destruct (isOk (scanHHMM tspec)); split.
    + auto.
    + intros _ [? _]. discriminate.
    + intros N. right. apply (Exists_Forall_neg _ _ Dec).
      intros F. apply N. split; [reflexivity|exact F].
    + intros [?|E] [_ F]; [discriminate|].
      apply (Exists_Forall_neg _ _ Dec) in E. contradiction.
  - destruct (scanHHMM tspec) as [[[hr mi] secs]|e'] eqn:Sc.
    + destruct (parseTime_Ok tspec w hr mi secs Sc) as (t & _ & ->). discriminate.
    + rewrite (parseTime_Err _ _ _ Sc). cbn [fst]. apply rangeSpecs_msg.
  - reflexivity.
  - assert (S : exists e, scanHHMM "not-a-time" = Err e) by (vm_compute; eauto).
    destruct S as [e S]. rewrite (parseTime_Err _ _ _ S). cbn [fst].
    destruct (rangeSpecs (wallclock w) specs "not-a-time") as [t|e'] eqn:R.
    + apply (f_equal isOk) in R. cbn in R.
      assert (F : Forall (fails "not-a-time") specs)
        by (repeat constructor; vm_compute; reflexivity).
      apply (rangeSpecs_fails (wallclock w)) in F. congruence.
    + f_equal. apply (rangeSpecs_msg _ _ _ _ R).
Qed.

Lemma completion_overflows (w : World) (now : Time) :
  now = wallclock w ->
  (forall (sp : tSpec) (tspec : string) (t : Time),
      In sp specs -> lacks sp = nomonth ->
      ParseInLocation (spec sp) tspec = Ok t ->
      daysIn (monthOf now) (yearOf now) < dayOf t ->
      yearOf (complete now (lacks sp) t) = yearOf now /\
      monthOf (complete now (lacks sp) t) = monthOf now + 1 /\
      dayOf (complete now (lacks sp) t)
      = dayOf t - daysIn (monthOf now) (yearOf now)) /\
  (daysIn (monthOf now) (yearOf now) = 30 ->
   parseTime "31" w
   = (Ok (Date (yearOf now) (monthOf now + 1) 1 0 0 0 0), snd (timeNow w)) /\
   yearOf (Date (yearOf now) (monthOf now + 1) 1 0 0 0 0) = yearOf now /\
   monthOf (Date (yearOf now) (monthOf now + 1) 1 0 0 0 0) = monthOf now + 1 /\
   dayOf (Date (yearOf now) (monthOf now + 1) 1 0 0 0 0) = 1) /\
  (isLeap (yearOf now) = false ->
   ParseInLocation "01-02" "02-29" = Ok (Date 0 2 29 0 0 0 0) /\
   parseTime "02-29" w = (Ok (Date (yearOf now) 3 1 0 0 0 0), snd (timeNow w)) /\
   yearOf (Date (yearOf now) 3 1 0 0 0 0) = yearOf now /\
   monthOf (Date (yearOf now) 3 1 0 0 0 0) = 3 /\
   dayOf (Date (yearOf now) 3 1 0 0 0 0) = 1).
Proof.
  intros En. destruct (Date_of_fields now) as ((Mnow & _) & _ & _).
  assert (C0 : validClock 0 0 0 0) by closed.
  split; [|split].
  - intros sp tspec t I K P G.
    destruct (ParseInLocation_inv _ _ _ P)
      as (y & mo & d & h & mi & s & ns & -> & V & C & Ny & Nm & _).
    destruct (specs_lack sp I) as (_ & LY & LM).
    assert (Y0 : y = 0) by (apply Ny, LY; rewrite K; discriminate).
    assert (M1 : mo = 1) by (apply Nm, LM, K). subst y mo.
    destruct (fields_of_Date _ _ _ _ _ _ _ V C) as (_ & _ & Fd & _).
    rewrite Fd in *. rewrite K, complete_nomonth, Z.add_0_l by assumption.
    destruct V as [_ V]. change (daysIn 1 0) with 31 in V.
    destruct (Date_overflow_fields (yearOf now) (monthOf now) d h mi s ns Mnow
                ltac:(lia) C) as (R1 & R2 & R3 & _).
    auto.
  - intros D30.
    assert (M11 : monthOf now <= 11).
    { destruct (Z.eq_dec (monthOf now) 12) as [E|]; [|lia].
      rewrite E in D30. discriminate D30. }
    pose proof (daysIn_bounds (monthOf now + 1) (yearOf now) ltac:(lia)) as B.
    split.
    + rewrite (parseTime_at "31" w 8 (mkSpec "02" nomonth) (Date 0 1 31 0 0 0 0))
        by (vm_compute; reflexivity).
      cbn [lacks]. rewrite <- En, complete_nomonth, Z.add_0_l by closed.
      pose proof (Date_day_overflow (yearOf now) (monthOf now) 1 0 0 0 0 Mnow) as O.
      rewrite D30 in O. change (30 + 1) with 31 in O. now rewrite O.
    + destruct (fields_of_Date (yearOf now) (monthOf now + 1) 1 0 0 0 0)
        as (F1 & F2 & F3 & _); [split; lia | exact C0 | auto].
  - intros NL.
    assert (D28 : daysIn 2 (yearOf now) = 28).
    { unfold daysIn. rewrite NL. reflexivity. }
    split; [vm_compute; reflexivity|]. split.
    + rewrite (parseTime_at "02-29" w 5 (mkSpec "01-02" noyear) (Date 0 2 29 0 0 0 0))
        by (vm_compute; reflexivity).
      cbn [lacks]. rewrite <- En, complete_noyear, Z.add_0_l by closed.
      pose proof (Date_day_overflow (yearOf now) 2 1 0 0 0 0 ltac:(lia)) as O.
      rewrite D28 in O. change (28 + 1) with 29 in O. change (2 + 1) with 3 in O.
      now rewrite O.
    + pose proof (daysIn_bounds 3 (yearOf now) ltac:(lia)).
      destruct (fields_of_Date (yearOf now) 3 1 0 0 0 0)
        as (F1 & F2 & F3 & _); [split; lia | exact C0 | auto].
Qed.

(** C10. The completions are made with the normalising [AddDate]: a
    completed date whose day its month does not have is not an error but
    runs over into the next month.  When a layout without month parsed a
    day past the end of the current month, the result is in the next month
    of the current year; the text 31 read in a month of 30 days is the 1st
    of the next month; and the text 02-29, which the layout parses in the
    leap year 0, read in a year that is not a leap year is March 1 of the
    current year. *)
Theorem C10_completion_overflows (w : World) :
  let now := wallclock w in
  (forall (sp : tSpec) (tspec : string) (t : Time),
      In sp specs -> lacks sp = nomonth ->
      ParseInLocation (spec sp) tspec = Ok t ->
      daysIn (monthOf now) (yearOf now) < dayOf t ->
      yearOf (complete now (lacks sp) t) = yearOf now /\
      monthOf (complete now (lacks sp) t) = monthOf now + 1 /\
      dayOf (complete now (lacks sp) t)
      = dayOf t - daysIn (monthOf now) (yearOf now)) /\
  (daysIn (monthOf now) (yearOf now) = 30 ->
   parseTime "31" w
   = (Ok (Date (yearOf now) (monthOf now + 1) 1 0 0 0 0), snd (timeNow w)) /\
   yearOf (Date (yearOf now) (monthOf now + 1) 1 0 0 0 0) = yearOf now /\
   monthOf (Date (yearOf now) (monthOf now + 1) 1 0 0 0 0) = monthOf now + 1 /\
   dayOf (Date (yearOf now) (monthOf now + 1) 1 0 0 0 0) = 1) /\
  (isLeap (yearOf now) = false ->
   ParseInLocation "01-02" "02-29" = Ok (Date 0 2 29 0 0 0 0) /\
   parseTime "02-29" w = (Ok (Date (yearOf now) 3 1 0 0 0 0), snd (timeNow w)) /\
   yearOf (Date (yearOf now) 3 1 0 0 0 0) = yearOf now /\
   monthOf (Date (yearOf now) 3 1 0 0 0 0) = 3 /\
   dayOf (Date (yearOf now) 3 1 0 0 0 0) = 1).
Proof.
  intros now. exact (completion_overflows w now eq_refl).
Qed.

Lemma C10_completion_overflows_witness :
  let w := mkWorld (Date 2023 4 10 14 0 0 0) 0 [] in
  parseTime "31" w = (Ok (Date 2023 5 1 0 0 0 0), snd (timeNow w)) /\
  parseTime "02-29" w = (Ok (Date 2023 3 1 0 0 0 0), snd (timeNow w)).
Proof.
  intros w.
  destruct (C10_completion_overflows w) as (_ & A & B).
  assert (Y : yearOf (wallclock w) = 2023) by (vm_compute; reflexivity).
  assert (M : monthOf (wallclock w) = 4) by (vm_compute; reflexivity).
  rewrite Y, M in A. rewrite Y in B. change (4 + 1) with 5 in A. split.
  - apply A. vm_compute. reflexivity.
  - apply B. vm_compute. reflexivity.
Defined.




(* ================================================================== *)
(** * Further properties of the program *)

(* ------------------------------------------------------------------ *)
(** * Runs of the wait loop *)

(** Induction on the passes of a run that returns, for any clock. *)
Lemma waitLoop_run_ind (e : ClockModel) (tgt : Time) (P : World -> World -> Prop) :
  (forall w, iteration tgt (wallclock w) = Return -> P w (snd (timeNow w))) ->
  (forall w d w',
      iteration tgt (wallclock w) = Sleep d ->
      sleepsOf w w' = d :: sleepsOf (timeSleep e d (snd (timeNow w))) w' ->
      P (timeSleep e d (snd (timeNow w))) w' -> P w w') ->
  forall (f : nat) (w w' : World), waitLoop e f tgt w = Some w' -> P w w'.
Proof.
  intros HR HS f. induction f as [|f IH]; intros w w'; cbn [waitLoop]; [discriminate|].
  unfold timeNow at 1. cbv beta iota.
  destruct (iteration tgt (wallclock w)) as [|d] eqn:It.
  - intros [= <-]. now apply HR.
  - intros H. apply (HS w d w' It).
    + apply (sleepsOf_step e f tgt w w' d (S (reads w)) (e (wallclock w) d)).
      exact H.
    + apply IH. exact H.
Qed.

(** A sleep is at least one second and at most one hour long; it does not
    go past the target, and after it either the target is reached or at
    least one second remains. *)
Lemma sleep_not_past_target (tgt now : Time) (d : Duration) :
  iteration tgt now = Sleep d ->
  Second <= d <= Hour /\ d <= tgt - now /\
  (d = tgt - now \/ Second <= tgt - now - d).
Proof.
  intros H. apply iteration_Sleep_inv in H as (R & S & ->).
  rewrite Sub_clamp in *. unfold sleepSpan.
  remember (Z.max minDuration (Z.min maxDuration (tgt - now))) as dur eqn:E.
  assert (B : Second <= dur <= tgt - now /\ (dur = tgt - now \/ 2 * Hour < dur))
    by (units; lia).
  clear E.
  destruct (Z.gtb_spec dur (2 * Hour)) as [G|G]; [units; lia|].
  destruct (Z.gtb_spec dur Minute) as [G1|G1].
  - rewrite Z.quot_div_nonneg by (units; lia).
    assert (Q : 2 * (dur / 2) <= dur < 2 * (dur / 2) + 2)
      by (Z.div_mod_to_equations; lia).
    remember (dur / 2) as q eqn:Eq. clear Eq. units; lia.
  - units; lia.
Qed.

(** X1. Whatever the clock does, every sleep of a run of the wait loop is
    between one second and one hour long. *)
Lemma every_sleep_between_second_and_hour (e : ClockModel) (f : nat) (tgt : Time)
      (w w' : World) :
  waitLoop e f tgt w = Some w' ->
  Forall (fun d => Second <= d <= Hour) (sleepsOf w w').
Proof.
  apply (waitLoop_run_ind e tgt
           (fun w w' => Forall (fun d => Second <= d <= Hour) (sleepsOf w w'))).
  - intros w0 _. unfold timeNow. cbn [snd]. rewrite sleepsOf_refl. constructor.
  - intros w0 d w1 It -> IH. constructor; [|exact IH].
    apply (sleep_not_past_target _ _ _ It).
Qed.

Lemma every_sleep_between_second_and_hour_witness :
  Forall (fun d => Second <= d <= Hour)
         (sleepsOf (mkWorld 0 0 [])
                   (mkWorld (90 * Second) 3 [45 * Second; 45 * Second])).
Proof.
  apply (every_sleep_between_second_and_hour stableClock 5 (90 * Second)).
  vm_compute. reflexivity.
Defined.

(** X2. Whatever the clock does, a run of the wait loop reads the clock
    once more than it sleeps. *)
Lemma reads_one_more_than_sleeps (e : ClockModel) (f : nat) (tgt : Time)
      (w w' : World) :
  waitLoop e f tgt w = Some w' ->
  reads w' = (reads w + List.length (sleepsOf w w') + 1)%nat.
Proof.
  apply (waitLoop_run_ind e tgt
           (fun w w' => reads w' = (reads w + List.length (sleepsOf w w') + 1)%nat)).
  - intros w0 _. unfold timeNow. cbn [snd reads]. rewrite sleepsOf_refl. cbn. lia.
  - intros w0 d w1 It -> IH. rewrite IH. unfold timeSleep, timeNow. cbn. lia.
Qed.

Lemma reads_one_more_than_sleeps_witness :
  let w := mkWorld 0 7 [] in
  let w' := mkWorld (90 * Second) 10 [45 * Second; 45 * Second] in
  reads w' = (reads w + List.length (sleepsOf w w') + 1)%nat.
Proof.
  intros w w'.
  apply (reads_one_more_than_sleeps stableClock 5 (90 * Second)).
  vm_compute. reflexivity.
Defined.

(** X3. Whatever the clock does, when the wait loop returns the last
    reading of the clock is less than one second before the target, or
    after it; the reading may still be before the target. *)
Lemma returns_within_a_second (e : ClockModel) (f : nat) (tgt : Time) (w w' : World) :
  waitLoop e f tgt w = Some w' -> tgt - wallclock w' < Second.
Proof.
  apply (waitLoop_run_ind e tgt (fun _ w' => tgt - wallclock w' < Second)).
  - intros w0 It. apply iteration_Return in It. exact It.
  - intros w0 d w1 _ _ IH. exact IH.
Qed.

Lemma returns_within_a_second_witness :
  10 * Second - wallclock (mkWorld (9500 * Millisecond) 1 []) < Second /\
  wallclock (mkWorld (9500 * Millisecond) 1 []) < 10 * Second.
Proof.
  split.
  - apply (returns_within_a_second stableClock 1 (10 * Second)
             (mkWorld (9500 * Millisecond) 0 [])).
    vm_compute. reflexivity.
  - vm_compute. reflexivity.
Defined.

Lemma stable_run (f : nat) (tgt : Time) (w w' : World) :
  waitLoop stableClock f tgt w = Some w' ->
  (tgt - wallclock w < Second ->
   wallclock w' = wallclock w /\ sleepsOf w w' = []) /\
  (Second <= tgt - wallclock w ->
   wallclock w' = tgt /\ total (sleepsOf w w') = tgt - wallclock w).
Proof.
  apply (waitLoop_run_ind stableClock tgt
           (fun w w' =>
              (tgt - wallclock w < Second ->
               wallclock w' = wallclock w /\ sleepsOf w w' = []) /\
              (Second <= tgt - wallclock w ->
               wallclock w' = tgt /\ total (sleepsOf w w') = tgt - wallclock w))).
  - intros w0 It. apply iteration_Return in It. unfold timeNow. cbn [snd wallclock].
    rewrite sleepsOf_refl. split; [auto | lia].
  - intros w0 d w1 It E [IH1 IH2].
    destruct (sleep_not_past_target _ _ _ It) as (B & L & K).
    remember (timeSleep stableClock d (snd (timeNow w0))) as w2 eqn:E2.
    assert (W2 : wallclock w2 = wallclock w0 + d) by (subst w2; reflexivity).
    clear E2. rewrite W2 in IH1, IH2.
    split; [units; lia|]. intros _. rewrite E. cbn [total fold_right].
    fold (total (sleepsOf w2 w1)).
    destruct K as [K|K].
    + destruct IH1 as [-> ->]; [units; lia|]. cbn [total fold_right]. lia.
    + destruct IH2 as [-> T]; [lia|]. rewrite T. lia.
Qed.

(** X4. Under a stable clock a run that starts at least one second before
    the target ends with the clock exactly at the target, and the sleeps
    add up to the distance; a run that starts later does not sleep. *)
Lemma stable_clock_arrives_exactly (f : nat) (tgt : Time) (w w' : World) :
  waitLoop stableClock f tgt w = Some w' ->
  (tgt - wallclock w < Second ->
   wallclock w' = wallclock w /\ sleepsOf w w' = []) /\
  (Second <= tgt - wallclock w ->
   wallclock w' = tgt /\ total (sleepsOf w w') = tgt - wallclock w).
Proof. apply stable_run. Qed.

Lemma stable_clock_arrives_exactly_witness :
  wallclock (mkWorld (90 * Second) 3 [45 * Second; 45 * Second]) = 90 * Second.
Proof.
  apply (stable_clock_arrives_exactly 5 (90 * Second) (mkWorld 0 0 [])).
  - vm_compute. reflexivity.
  - vm_compute. discriminate.
Defined.

(** X5. A forward step of the clock is noticed at the next reading: if the
    clock, after the first sleep, shows a time less than a second before
    the target or past it, the loop returns after that one sleep,
    whatever the distance was. *)
Lemma forward_jump_ends_wait (e : ClockModel) (f : nat) (tgt : Time) (w : World) :
  Second <= tgt - wallclock w ->
  tgt - e (wallclock w) (sleepSpan (Sub tgt (wallclock w))) < Second ->
  exists w',
    waitLoop e (S (S f)) tgt w = Some w' /\
    sleepsOf w w' = [sleepSpan (Sub tgt (wallclock w))] /\
    reads w' = (reads w + 2)%nat /\
    wallclock w' = e (wallclock w) (sleepSpan (Sub tgt (wallclock w))).
Proof.
  intros R J. pose proof (iteration_Sleep _ _ R) as It.
  set (d := sleepSpan (Sub tgt (wallclock w))) in *.
  set (w2 := timeSleep e d (snd (timeNow w))).
  assert (E2 : waitLoop e (S f) tgt w2
               = Some (mkWorld (wallclock w2) (S (reads w2)) (slept w2)))
    by (apply loop_return; exact J).
  exists (mkWorld (wallclock w2) (S (reads w2)) (slept w2)). split; [|split; [|split]].
  - change (waitLoop e (S (S f)) tgt w)
      with (let (now, w1) := timeNow w in
            match iteration tgt now with
            | Return => Some w1
            | Sleep d => waitLoop e (S f) tgt (timeSleep e d w1)
            end).
    unfold timeNow at 1. cbv beta iota. rewrite It. exact E2.
  - unfold sleepsOf, w2, timeSleep, timeNow. cbn [slept snd].
    apply skipn_length_app.
  - unfold w2, timeSleep, timeNow. cbn. lia.
  - reflexivity.
Qed.

Lemma forward_jump_ends_wait_witness :
  exists w',
    waitLoop (fun t _ => t + 10 * Hour) 2 (10 * Hour) (mkWorld 0 0 []) = Some w' /\
    sleepsOf (mkWorld 0 0 []) w' = [Hour].
Proof.
  destruct (forward_jump_ends_wait (fun t _ => t + 10 * Hour) 0 (10 * Hour)
              (mkWorld 0 0 [])) as (w' & A & B & _).
  - vm_compute. discriminate.
  - vm_compute. reflexivity.
  - exists w'. split; [exact A|]. rewrite B. vm_compute. reflexivity.
Defined.

(* ------------------------------------------------------------------ *)
(** * The time of the day *)









(* ------------------------------------------------------------------ *)
(** * Parsing and the world *)

(** X8. Whatever the text, [parseTime] reads the clock exactly once and
    does nothing else to the world; a simple form that fails has not read
    the clock. *)
Lemma parseTime_reads_clock_once (tspec : string) (w : World) :
  snd (parseTime tspec w) = mkWorld (wallclock w) (S (reads w)) (slept w) /\
  (isOk (fst (parseHHMM tspec w)) = false -> snd (parseHHMM tspec w) = w) /\
  (isOk (fst (parseHHMM tspec w)) = true ->
   snd (parseHHMM tspec w) = mkWorld (wallclock w) (S (reads w)) (slept w)).
Proof.
  rewrite parseHHMM_isOk.
  destruct (scanHHMM tspec) as [[[hr mi] secs]|e] eqn:Sc.
  - destruct (parseTime_Ok tspec w hr mi secs Sc) as (t & -> & ->).
    split; [reflexivity|]. split; [discriminate|reflexivity].
  - rewrite (parseTime_Err _ _ _ Sc), (parseHHMM_Err _ _ _ Sc).
    split; [reflexivity|]. split; [reflexivity|discriminate].
Qed.

Lemma parseTime_world (tspec : string) (w : World) :
  parseTime tspec w = (fst (parseTime tspec w), snd (timeNow w)).
Proof.
  destruct (scanHHMM tspec) as [[[hr mi] secs]|e] eqn:Sc.
  - destruct (parseTime_Ok tspec w hr mi secs Sc) as (t & _ & ->). reflexivity.
  - rewrite (parseTime_Err _ _ _ Sc). reflexivity.
Qed.

(* ------------------------------------------------------------------ *)
(** * The program as a whole *)

(** X9. When the arguments cannot be parsed, [main] returns without
    entering the wait loop: it has read the clock once and has not slept,
    whatever the clock and however little fuel there is. *)
Lemma main_unparseable_does_not_wait (elapse : ClockModel) (fuel : nat)
      (args : list string) (w : World) :
  args <> [] ->
  isOk (fst (parseTime (String.concat " " args) w)) = false ->
  main elapse fuel args w = Some (mkWorld (wallclock w) (S (reads w)) (slept w)).
Proof.
  intros NE F. unfold main. destruct args as [|a args]; [contradiction|].
  rewrite parseTime_world in *. cbn [fst] in F.
  destruct (fst (parseTime _ w)); [discriminate|reflexivity].
Qed.

Lemma main_unparseable_does_not_wait_witness :
  main stableClock 0 ["not"%string; "a"%string; "time"%string] (mkWorld 0 0 [])
  = Some (mkWorld 0 1 []).
Proof.
  apply (main_unparseable_does_not_wait stableClock 0
           ["not"%string; "a"%string; "time"%string] (mkWorld 0 0 [])).
  - discriminate.
  - vm_compute. reflexivity.
Defined.

(** X10. When the parsed target is in the past, or less than a second
    ahead, [main] returns at once: two readings of the clock, one by the
    parser and one by the loop, and no sleep, whatever the clock. *)
Lemma main_target_reached_exits (elapse : ClockModel) (fuel : nat)
      (args : list string) (w : World) (tgt : Time) :
  args <> [] ->
  fst (parseTime (String.concat " " args) w) = Ok tgt ->
  tgt - wallclock w < Second ->
  main elapse (S fuel) args w
  = Some (mkWorld (wallclock w) (S (S (reads w))) (slept w)).
Proof.
  intros NE P R. unfold main. destruct args as [|a args]; [contradiction|].
  rewrite parseTime_world, P. unfold timeNow. cbn [snd].
  now rewrite loop_return.
Qed.

Lemma main_target_reached_exits_witness :
  main stableClock 1 ["2020-01-01"%string; "09:30"%string]
       (mkWorld (Date 2024 4 10 14 0 0 0) 0 [])
  = Some (mkWorld (Date 2024 4 10 14 0 0 0) 2 []).
Proof.
  apply (main_target_reached_exits stableClock 0
           ["2020-01-01"%string; "09:30"%string]
           (mkWorld (Date 2024 4 10 14 0 0 0) 0 []) (Date 2020 1 1 9 30 0 0)).
  - discriminate.
  - vm_compute. reflexivity.
  - vm_compute. reflexivity.
Defined.

Lemma waitLoop_terminates (tgt : Time) (w : World) :
  exists (fuel : nat) (w' : World), waitLoop stableClock fuel tgt w = Some w'.
Proof.
  destruct (Z.le_gt_cases (tgt - wallclock w) (2 * Hour)) as [L|G].
  - destruct (halving_phase 7 tgt w) as (w' & R & _); [units; lia | exact L |].
    eauto.
  - destruct (hour_phase (Z.to_nat ((tgt - wallclock w) / Hour)) tgt w)
      as (w' & R & _); [|eauto].
    split; [lia|]. rewrite Z2Nat.id by (apply Z.div_pos; units; lia).
    assert (H : 0 < Hour) by (units; lia).
    pose proof (Z.mod_pos_bound (tgt - wallclock w) Hour H).
    pose proof (Z.div_mod (tgt - wallclock w) Hour ltac:(lia)). nia.
Qed.

(** X11. Under a stable clock [main] returns for every list of arguments
    and every start of the clock; if the arguments parse to a target at
    least one second ahead, it returns with the clock exactly at the
    target, having slept exactly the distance. *)
Lemma main_stable_clock_waits_until_target (args : list string) (w : World) :
  exists (fuel : nat) (w' : World),
    main stableClock fuel args w = Some w' /\
    (forall tgt : Time,
        args <> [] ->
        fst (parseTime (String.concat " " args) w) = Ok tgt ->
        Second <= tgt - wallclock w ->
        wallclock w' = tgt /\ total (sleepsOf w w') = tgt - wallclock w).
Proof.
  destruct args as [|a args].
  - exists 0%nat, w. split; [reflexivity|]. intros tgt NE. contradiction.
  - unfold main. rewrite parseTime_world.
    destruct (fst (parseTime (String.concat " " (a :: args)) w)) as [t|e].
    + destruct (waitLoop_terminates t (snd (timeNow w))) as (fuel & w' & R).
      exists fuel, w'. split; [exact R|].
      intros tgt _ [= <-] D.
      destruct (stable_run _ _ _ _ R) as (_ & A).
      exact (A D).
    + exists 0%nat, (snd (timeNow w)). split; [reflexivity|]. discriminate.
Qed.

(* ------------------------------------------------------------------ *)
(** * The layouts and their completion *)


Lemma specs_table (sp : tSpec) :
  In sp specs ->
  (In stdLongYear (elements (spec sp)) <-> lacks sp = full) /\
  (In stdZeroMonth (elements (spec sp)) <-> lacks sp < nomonth) /\
  In stdZeroDay (elements (spec sp)) /\
  (In stdHour (elements (spec sp)) <-> In stdZeroMinute (elements (spec sp))) /\
  (In stdZeroSecond (elements (spec sp)) -> In stdZeroMinute (elements (spec sp))) /\
  full <= lacks sp <= nomonth.
Proof.
  unfold specs. cbn [In]. intros I.
  repeat (destruct I as [<-|I];
          [vm_compute; intuition (try discriminate; try congruence)|]).
  contradiction.
Qed.

(** X12. The marker of every entry of [specs] says what its layout lacks:
    the layout has a year exactly when the marker is [full], a month
    exactly when it is below [nomonth], always a day, and minutes exactly
    when it has hours. *)
Lemma markers_agree_with_layouts (sp : tSpec) :
  In sp specs ->
  (In stdLongYear (elements (spec sp)) <-> lacks sp = full) /\
  (In stdZeroMonth (elements (spec sp)) <-> lacks sp < nomonth) /\
  In stdZeroDay (elements (spec sp)) /\
  (In stdHour (elements (spec sp)) <-> In stdZeroMinute (elements (spec sp))) /\
  (In stdZeroSecond (elements (spec sp)) -> In stdZeroMinute (elements (spec sp))) /\
  full <= lacks sp <= nomonth.
Proof. apply specs_table. Qed.

Lemma markers_agree_with_layouts_witness :
  In stdLongYear (elements "01-02 15:04") <-> noyear = full.
Proof.
  apply (markers_agree_with_layouts (mkSpec "01-02 15:04" noyear)).
  vm_compute. auto 10.
Defined.








(* ------------------------------------------------------------------ *)
(** * The simple form and the layouts *)



Lemma scanHHMM_needs_colon (ds rest : string) :
  isNumeral ds = true -> decimal ds <= maxInt64 ->
  endsNumber rest = true -> noColon rest = true ->
  isOk (scanHHMM (ds ++ rest)) = false.
Proof.
  intros N M E NC.
  unfold scanHHMM, Sscanf. cbn [doScanf].
  rewrite (scanInt_numeral ds rest N M E). cbn [app].
  destruct rest as [|c r]; [reflexivity|].
  cbn [noColon] in NC. apply negb_true_iff in NC.
  change (code ":") with 58.
  destruct (Z.eqb_spec 58 (code c)) as [C|C]; [|reflexivity].
  rewrite <- C in NC. discriminate.
Qed.

Lemma numeral_small (ds : string) (n : nat) :
  allDigits ds = true -> String.length ds = n -> (n <= 4)%nat ->
  decimal ds <= maxInt64.
Proof.
  intros D L N. pose proof (decimal_bounds ds D) as B. rewrite L in B.
  assert (P : 10 ^ Z.of_nat n <= 10 ^ 4) by (apply Z.pow_le_mono_r; lia).
  change (10 ^ 4) with 10000 in P. unfold maxInt64.
  change (2 ^ 63) with 9223372036854775808. lia.
Qed.

Lemma take_drop (n : nat) (s : string) : (take n s ++ drop n s)%string = s.
Proof.
  revert s. induction n as [|n IH]; intros [|c s]; cbn; try reflexivity.
  now rewrite IH.
Qed.

Lemma take_length_le (n : nat) (s : string) :
  (n <= String.length s)%nat -> String.length (take n s) = n.
Proof.
  revert s. induction n as [|n IH]; intros [|c s]; cbn; try lia.
  intros L. rewrite IH; lia.
Qed.

(** The first element of a layout that starts with the year, the month or
    the day takes a run of digits off the text. *)
Lemma parseChunk_number (std : stdChunk) (value : string) (f f1 : fields)
      (v2 : string) :
  std = stdLongYear \/ std = stdZeroMonth \/ std = stdZeroDay ->
  parseChunk std value f = Ok (f1, v2) ->
  exists ds, value = (ds ++ v2)%string /\ isNumeral ds = true /\
             decimal ds <= maxInt64.
Proof.
  intros [-> | [-> | ->] ]; cbn [parseChunk].
  - destruct (4 <=? String.length value)%nat eqn:L; [|discriminate]. cbn [andb].
    destruct (allDigits (take 4 value)) eqn:D; [|discriminate].
    intros [= <- <-]. apply Nat.leb_le in L.
    exists (take 4 value). split; [symmetry; apply take_drop|].
    pose proof (take_length_le 4 value L) as TL. split.
    + destruct (take 4 value); [discriminate TL|exact D].
    + apply (numeral_small _ 4 D TL). lia.
  - unfold getnum. destruct value as [|a [|b r]]; try discriminate;
      destruct (isDigit a) eqn:A; try discriminate.
    destruct (isDigit b) eqn:B; [|discriminate].
    destruct (_ || _); [discriminate|]. intros [= <- <-].
    exists (String a (String b EmptyString)). split; [reflexivity|]. split.
    + cbn. now rewrite A, B.
    + apply (numeral_small _ 2); [cbn; now rewrite A, B | reflexivity | lia].
  - unfold getnum. destruct value as [|a [|b r]]; try discriminate;
      destruct (isDigit a) eqn:A; try discriminate.
    destruct (isDigit b) eqn:B; [|discriminate].
    intros [= <- <-].
    exists (String a (String b EmptyString)). split; [reflexivity|]. split.
    + cbn. now rewrite A, B.
    + apply (numeral_small _ 2); [cbn; now rewrite A, B | reflexivity | lia].
Qed.

(** What may follow the first number in a text that a layout parses: a
    dash, a space before the hour, or nothing. *)
Lemma after_first_number (fuel : nat) (suffix value : string) (f f' : fields) :
  nextStdChunk suffix = ("-"%string, stdZeroMonth, drop 3 suffix) \/
  nextStdChunk suffix = ("-"%string, stdZeroDay, drop 3 suffix) \/
  nextStdChunk suffix = (" "%string, stdHour, drop 3 suffix) \/
  nextStdChunk suffix = (EmptyString, stdNone, EmptyString) ->
  parseLoop (S fuel) suffix value f = Ok f' ->
  endsNumber value = true /\ noColon value = true.
Proof.
  intros N. cbn [parseLoop].
  destruct N as [-> | [-> | [-> | ->] ] ]; unfold skip; cbn [skipFrom].
  - destruct value as [|c r]; [discriminate|].
    change (code "-") with 45. change (45 =? 32) with false. cbv iota.
    destruct (Z.eqb_spec (code c) 45) as [C|C]; [|discriminate].
    intros _. unfold endsNumber, noColon, isNumberByte, isDigit. rewrite C.
    split; reflexivity.
  - destruct value as [|c r]; [discriminate|].
    change (code "-") with 45. change (45 =? 32) with false. cbv iota.
    destruct (Z.eqb_spec (code c) 45) as [C|C]; [|discriminate].
    intros _. unfold endsNumber, noColon, isNumberByte, isDigit. rewrite C.
    split; reflexivity.
  - change (code " " =? 32) with true. cbv iota.
    destruct value as [|c r]; [intros _; split; reflexivity|].
    destruct (Z.eqb_spec (code c) 32) as [C|C]; [|discriminate].
    intros _. unfold endsNumber, noColon, isNumberByte, isDigit. rewrite C.
    split; reflexivity.
  - destruct value as [|c r]; [intros _; split; reflexivity|discriminate].
Qed.

Lemma layout_text_shape (layout value : string) (t : Time) (std : stdChunk)
      (suffix : string) :
  nextStdChunk layout = (EmptyString, std, suffix) ->
  std = stdLongYear \/ std = stdZeroMonth \/ std = stdZeroDay ->
  nextStdChunk suffix = ("-"%string, stdZeroMonth, drop 3 suffix) \/
  nextStdChunk suffix = ("-"%string, stdZeroDay, drop 3 suffix) \/
  nextStdChunk suffix = (" "%string, stdHour, drop 3 suffix) \/
  nextStdChunk suffix = (EmptyString, stdNone, EmptyString) ->
  (1 <= String.length layout)%nat ->
  ParseInLocation layout value = Ok t ->
  isOk (scanHHMM value) = false.
Proof.
  intros N1 S1 N2 L P. unfold ParseInLocation in P.
  destruct (parseLoop _ layout value noFields) as [f'|] eqn:PL; [|discriminate].
  destruct (String.length layout) as [|k]; [lia|].
  cbn [parseLoop] in PL. rewrite N1 in PL. unfold skip in PL. cbn [skipFrom] in PL.
  assert (PL' : match parseChunk std value noFields with
                | Ok (f1, value2) => parseLoop (S k) suffix value2 f1
                | Err e => Err e
                end = Ok f')
    by (destruct S1 as [-> | [-> | ->] ]; exact PL).
  destruct (parseChunk std value noFields) as [[f1 value2]|] eqn:PC; [|discriminate].
  destruct (parseChunk_number std value noFields f1 value2 S1 PC) as (ds & -> & Nd & Md).
  destruct (after_first_number k suffix value2 f1 f' N2 PL') as (E & NC).
  now apply scanHHMM_needs_colon.
Qed.

(** X17. The simple form and the layouts do not overlap: a text that some
    layout of [specs] parses is not scanned by the simple form, so that
    trying the simple form first takes no text away from the layouts. *)
Lemma layouts_are_not_clock_times (sp : tSpec) (tspec : string) (t : Time) :
  In sp specs -> ParseInLocation (spec sp) tspec = Ok t ->
  isOk (scanHHMM tspec) = false /\
  forall w : World, isOk (fst (parseHHMM tspec w)) = false.
Proof.
  intros I P.
  assert (F : isOk (scanHHMM tspec) = false).
  { revert P. unfold specs in I. cbn [In] in I.
    repeat (destruct I as [<-|I];
            [cbn [spec]; intros P;
             match type of P with
             | ParseInLocation ?l _ = _ => eapply (layout_text_shape l)
             end;
             [reflexivity | | | | exact P];
             [ first [left; reflexivity | right; left; reflexivity
                     | right; right; reflexivity]
             | first [left; reflexivity | right; left; reflexivity
                     | right; right; left; reflexivity
                     | right; right; right; reflexivity]
             | cbn; lia ]|]).
    contradiction. }
  split; [exact F|]. intros w. now rewrite parseHHMM_isOk.
Qed.

Lemma layouts_are_not_clock_times_witness :
  isOk (scanHHMM "2024-03-01 09:30") = false.
Proof.
  apply (layouts_are_not_clock_times (mkSpec "2006-01-02 15:04" full)
           "2024-03-01 09:30" (Date 2024 3 1 9 30 0 0)).
  - vm_compute. auto 10.
  - vm_compute. reflexivity.
Defined.






(* ------------------------------------------------------------------ *)
(** * The calendar the program builds its times with *)




(** X22. [Date] normalises instead of failing: a day past the end of a
    month is a day of the next month, 24 hours more are one day more, and
    a month past December is a month of the next year. *)
Lemma Date_normalises (y m d h mi s ns : Z) :
  (1 <= m <= 12 ->
   Date y m (daysIn m y + d) h mi s ns = Date y (m + 1) d h mi s ns) /\
  Date y m d (h + 24) mi s ns = Date y m (d + 1) h mi s ns /\
  Date y m d h (mi + 60) s ns = Date y m d (h + 1) mi s ns /\
  Date y m d h mi (s + 60) ns = Date y m d h (mi + 1) s ns /\
  Date y (m + 12) d h mi s ns = Date (y + 1) m d h mi s ns.
Proof.
  split; [apply Date_day_overflow|].
  rewrite !Date_linear.
  assert (E : monthStart y (m + 12) = monthStart (y + 1) m).
  { unfold monthStart. rewrite !norm_floor by lia.
    replace (m + 12 - 1) with (m - 1 + 1 * 12) by lia.
    rewrite Z.div_add, Z.mod_add by lia.
    replace (y + ((m - 1) / 12 + 1)) with (y + 1 + (m - 1) / 12) by lia.
    reflexivity. }
  rewrite E.
  cbv [nsPerDay secondsPerDay secondsPerHour secondsPerMinute Second Millisecond
       Microsecond Nanosecond].
  repeat split; lia.
Qed.

Lemma Date_normalises_witness :
  Date 2023 2 (daysIn 2 2023 + 1) 0 0 0 0 = Date 2023 (2 + 1) 1 0 0 0 0.
Proof.
  apply (Date_normalises 2023 2 1 0 0 0 0). lia.
Defined.

(* ------------------------------------------------------------------ *)
(** * Edges of the scanner and of the subtraction *)

Lemma scanInt_negative (ds rest : string) :
  isNumeral ds = true -> decimal ds <= maxInt64 -> endsNumber rest = true ->
  scanInt (String "-" (ds ++ rest)) = Ok (- decimal ds, rest).
Proof.
  intros N M E. destruct ds as [|c ds]; [discriminate|].
  cbn [isNumeral] in N. pose proof N as D. cbn [allDigits] in D.
  apply andb_true_iff in D as [C D].
  assert (SS : SkipSpace (String "-" (String c ds ++ rest))
               = Ok (String "-" (String c ds ++ rest))).
  { unfold SkipSpace. cbn [String.length skipSpaceFuel append].
    change (code "-" =? 10) with false. cbv iota.
    assert (SR : spaceRune (String "-" (String c (ds ++ rest))) = None).
    { unfold spaceRune. change (byteIn 9 13 "-" || (code "-" =? 32)) with false.
      cbv iota. change (code "-" =? 194) with false.
      change (code "-" =? 225) with false. change (code "-" =? 226) with false.
      change (code "-" =? 227) with false. cbn [andb].
      destruct (ds ++ rest)%string; reflexivity. }
    rewrite SR. reflexivity. }
  unfold scanInt. rewrite SS. change (isSign "-") with true. cbv iota.
  change (code "-" =? 45) with true. cbn [append].
  rewrite (isDigit_number c C).
  change (String c (ds ++ rest)) with (String c ds ++ rest)%string.
  rewrite (span_numeral _ _ N E). unfold ParseInt. rewrite N.
  pose proof (decimal_bounds _ N) as [B _].
  rewrite (proj2 (Z.leb_le minInt64 (- decimal (String c ds)))),
          (proj2 (Z.leb_le (- decimal (String c ds)) maxInt64)); [reflexivity | |].
  - unfold maxInt64 in *. change (2 ^ 63) with 9223372036854775808 in *. lia.
  - unfold minInt64, maxInt64 in *. change (2 ^ 63) with 9223372036854775808 in *.
    lia.
Qed.

(** X23. The simple form takes a sign: a text [-HH:MM] is scanned with
    the negative hour, which [Date] then counts back from midnight. *)
Lemma simple_form_takes_negative_hour (hh mm : string) (w : World) :
  isNumeral hh = true -> isNumeral mm = true ->
  decimal hh <= maxInt64 -> decimal mm <= maxInt64 ->
  scanHHMM (String "-" (hh ++ ":" ++ mm)) = Ok (- decimal hh, decimal mm, 0) /\
  isOk (fst (parseHHMM (String "-" (hh ++ ":" ++ mm)) w)) = true.
Proof.
  intros Nh Nm Mh Mm.
  assert (Sc : scanHHMM (String "-" (hh ++ ":" ++ mm))
               = Ok (- decimal hh, decimal mm, 0)).
  { unfold scanHHMM, Sscanf. cbn [doScanf].
    rewrite (scanInt_negative hh _ Nh Mh) by reflexivity.
    cbn [append doScanf]. change (code ":" =? code ":") with true. cbv iota.
    rewrite (scanInt_numeral_end mm Nm Mm). reflexivity. }
  split; [exact Sc|]. now rewrite parseHHMM_isOk, Sc.
Qed.

Lemma simple_form_takes_negative_hour_witness :
  scanHHMM "-1:30" = Ok (- decimal "1", decimal "30", 0) /\
  isOk (fst (parseHHMM "-1:30" (mkWorld 0 0 []))) = true.
Proof.
  apply (simple_form_takes_negative_hour "1" "30" (mkWorld 0 0 []));
    vm_compute; try reflexivity; discriminate.
Defined.

(** X24. The remaining duration does not overflow: for a target further
    ahead than the largest duration it is that largest duration and the
    loop sleeps one hour; for a target further back than the smallest
    duration the loop returns. *)
Lemma remaining_saturates (tgt now : Time) :
  (maxDuration < tgt - now ->
   Sub tgt now = maxDuration /\ iteration tgt now = Sleep Hour) /\
  (tgt - now < minDuration ->
   Sub tgt now = minDuration /\ iteration tgt now = Return).
Proof.
  split; intros H.
  - assert (S : Sub tgt now = maxDuration) by (rewrite Sub_clamp; units; lia).
    split; [exact S|]. rewrite iteration_Sleep by (units; lia). rewrite S.
    reflexivity.
  - split; [rewrite Sub_clamp; units; lia|].
    apply iteration_Return. units; lia.
Qed.

Lemma remaining_saturates_witness :
  Sub (2 ^ 64) 0 = maxDuration /\ iteration (2 ^ 64) 0 = Sleep Hour.
Proof.
  apply (remaining_saturates (2 ^ 64) 0). vm_compute. reflexivity.
Defined.
